(** * zathura-cb: comic book archives as paged documents

    A shallow embedding of [cb.c], the comic-book plugin of zathura, and the
    properties of its archive scanner ([read_archive]), page index
    ([cb_document_open], [cb_page_init]), path comparator ([compare_path]),
    extension filter ([get_extension]) and entry fetcher
    ([load_pixbuf_from_archive], [cb_page_render_cairo]).

    The libraries the plugin is linked against are not part of it and are
    modelled by their documented behaviour:
    - libarchive: a file name opens to a return code and a finite sequence of
      entries; every entry carries the code [archive_read_next_header]
      returned for it, its file type, its path name and the successive
      results of [archive_read_data_block] (return code and block).  When a
      sequence is used up the library answers [ARCHIVE_EOF];
    - gdk-pixbuf: an incremental loader, its [size-prepared] signal, and the
      one-shot decoder [gdk_pixbuf_new_from_stream] (class [Codec]);
    - glib: [strcmp]/[g_strcmp0], [strrchr], [g_list_insert_sorted], and the
      locale dependent [g_utf8_casefold] and [g_utf8_collate] (class
      [Locale]);
    - girara: lists with an optional comparison function.

    Pointers that may be [NULL] are options, except the path name of an
    entry, which libarchive is taken to provide.  Allocation by [g_malloc0]
    and [g_strdup] aborts the process on failure and is taken to succeed.
    C integers are in [Z]; the page dimensions, which zathura keeps as
    doubles, hold integers and are in [Z] too. *)

From Stdlib Require Import ZArith List String Ascii Bool Lia.
From Stdlib.Strings Require Import Byte.
From stdpp Require Import base list sorting strings.
Import ListNotations.

Local Open Scope string_scope.
Local Open Scope list_scope.
Local Open Scope Z_scope.

(** ** libarchive: return codes and file types (archive.h, archive_entry.h) *)

Definition ARCHIVE_EOF : Z := 1.
Definition ARCHIVE_OK : Z := 0.
Definition ARCHIVE_RETRY : Z := -10.
Definition ARCHIVE_WARN : Z := -20.
Definition ARCHIVE_FAILED : Z := -25.
Definition ARCHIVE_FATAL : Z := -30.

(** [AE_IFREG] is octal 0100000. *)
Definition AE_IFREG : Z := 32768.

(** One entry of an archive, as a reader sees it. *)
Record archive_entry := {
  entry_header : Z;                      (* archive_read_next_header *)
  entry_filetype : Z;                    (* archive_entry_filetype *)
  entry_pathname : string;               (* archive_entry_pathname *)
  entry_data : list (Z * list byte)      (* archive_read_data_block: code, block *)
}.

(** The calls that allocate, open, close and release an archive handle,
    recorded in the order the plugin makes them. *)
Inductive archive_call :=
| call_read_new
| call_read_open_filename (r : Z)
| call_read_close
| call_read_free.

(** What the plugin finds outside itself: whether [archive_read_new] hands
    out a handle, what [archive_read_open_filename] yields for a file name,
    and the extensions of each format known to gdk-pixbuf. *)
Record environment := {
  archive_read_new : bool;
  archive_read_open_filename : string -> Z * list archive_entry;
  gdk_pixbuf_get_formats : list (list string)
}.

(** Handles allocated and not yet released, and handles opened and not yet
    closed, after a sequence of calls. *)
Fixpoint live_handles (calls : list archive_call) : Z :=
  match calls with
  | [] => 0
  | call_read_new :: rest => live_handles rest + 1
  | call_read_free :: rest => live_handles rest - 1
  | _ :: rest => live_handles rest
  end.

Fixpoint open_handles (calls : list archive_call) : Z :=
  match calls with
  | [] => 0
  | call_read_open_filename r :: rest =>
      if r =? ARCHIVE_OK then open_handles rest + 1 else open_handles rest
  | call_read_close :: rest => open_handles rest - 1
  | _ :: rest => open_handles rest
  end.

Definition handles_released (calls : list archive_call) : Prop :=
  live_handles calls = 0 /\ open_handles calls = 0.

(** ** zathura: error codes (zathura/types.h) *)

Inductive zathura_error_t :=
| ZATHURA_ERROR_OK
| ZATHURA_ERROR_UNKNOWN
| ZATHURA_ERROR_OUT_OF_MEMORY
| ZATHURA_ERROR_NOT_IMPLEMENTED
| ZATHURA_ERROR_INVALID_ARGUMENTS
| ZATHURA_ERROR_INVALID_PASSWORD.

(** ** C and glib strings *)

Definition char_code (c : ascii) : Z := Z.of_N (N_of_ascii c).

(** [strcmp]: the standard fixes the sign of the result only; the end of a
    string sorts before every character. *)
Fixpoint strcmp (s1 s2 : string) : Z :=
  match s1, s2 with
  | EmptyString, EmptyString => 0
  | EmptyString, String _ _ => -1
  | String _ _, EmptyString => 1
  | String c1 t1, String c2 t2 =>
      if char_code c1 =? char_code c2 then strcmp t1 t2
      else char_code c1 - char_code c2
  end.

(** [g_strcmp0]: [strcmp] that accepts [NULL], which sorts first. *)
Definition g_strcmp0 (str1 str2 : option string) : Z :=
  match str1, str2 with
  | None, None => 0
  | None, Some _ => -1
  | Some _, None => 1
  | Some s1, Some s2 => strcmp s1 s2
  end.

(** [strrchr s c]: the suffix of [s] that starts at the last [c]. *)
Fixpoint strrchr (s : string) (c : ascii) : option string :=
  match s with
  | EmptyString => None
  | String a t =>
      match strrchr t c with
      | Some res => Some res
      | None => if Ascii.eqb a c then Some s else None
      end
  end.

(** [p + 1] on a pointer into a string. *)
Definition next_char (s : string) : string :=
  match s with
  | EmptyString => EmptyString
  | String _ t => t
  end.

Definition get_extension (path : option string) : option string :=
  match path with
  | None => None
  | Some path =>
      match strrchr path "." with
      | None => None
      | Some res => Some (next_char res)
      end
  end.

(** [c] occurs in [s]. *)
Fixpoint has_char (c : ascii) (s : string) : bool :=
  match s with
  | EmptyString => false
  | String a t => Ascii.eqb a c || has_char c t
  end.

(** ** Locale: case folding and collation *)

Class Locale := {
  g_utf8_casefold : string -> string;
  g_utf8_collate : string -> string -> Z
}.

(** Collation is a total preorder on strings: what [strcoll] promises. *)
Class Collation (L : Locale) : Prop := {
  collate_total : forall a b, 0 < g_utf8_collate a b -> g_utf8_collate b a <= 0;
  collate_trans : forall a b c,
    g_utf8_collate a b <= 0 -> g_utf8_collate b c <= 0 -> g_utf8_collate a c <= 0;
  collate_antisym : forall a b,
    g_utf8_collate a b <= 0 -> g_utf8_collate b a <= 0 -> g_utf8_collate a b = 0
}.

(** ** gdk-pixbuf: incremental loader and one-shot decoder

    [gdk_pixbuf_loader_write] returns whether the bytes were accepted, the
    size announced by [size-prepared] while they were parsed (if any) and
    the loader afterwards; [gdk_pixbuf_loader_close] parses what is still
    buffered and may announce the size then. *)
Class Codec := {
  GdkPixbuf : Type;
  GdkPixbufLoader : Type;
  gdk_pixbuf_loader_new : GdkPixbufLoader;
  gdk_pixbuf_loader_write :
    GdkPixbufLoader -> list byte -> bool * option (Z * Z) * GdkPixbufLoader;
  gdk_pixbuf_loader_close : GdkPixbufLoader -> option (Z * Z);
  gdk_pixbuf_new_from_stream : list byte -> option GdkPixbuf
}.

(** ** glib and girara lists *)

(** [g_list_insert_sorted]: walk while the new element compares greater,
    insert before the first element that does not. *)
Fixpoint g_list_insert_sorted {A} (l : list A) (data : A) (func : A -> A -> Z) : list A :=
  match l with
  | [] => [data]
  | x :: tl =>
      if 0 <? func data x then x :: g_list_insert_sorted tl data func
      else data :: l
  end.

(** [girara_list_append]: sorted insertion when the list has a comparison
    function, at the end otherwise. *)
Definition girara_list_append {A} (cmp : option (A -> A -> Z)) (l : list A) (data : A) : list A :=
  match cmp with
  | Some func => g_list_insert_sorted l data func
  | None => l ++ [data]
  end.

Definition girara_list_nth {A} (l : list A) (n : nat) : option A := nth_error l n.

Definition girara_list_size {A} (l : list A) : nat := length l.

(** ** The plugin's own data (cb.c) *)

(** Image meta-data read during the document initialization.  [file] is a
    [g_strdup] of a path name and is never [NULL]. *)
Record cb_document_page_meta_t := {
  file : string;
  width : Z;
  height : Z
}.

Record cb_document_t := {
  pages : list cb_document_page_meta_t
}.

Record cb_page_t := {
  cb_page_file : string
}.

(** The host's document and page objects, reduced to what the plugin reads
    and writes through zathura's accessors. *)
Record zathura_document_t := {
  document_path : string;
  number_of_pages : nat;
  document_data : option cb_document_t
}.

Record zathura_page_t := {
  page_document : option zathura_document_t;
  page_index : nat;
  page_width : Z;
  page_height : Z;
  page_data : option cb_page_t
}.

Definition zathura_page_get_document (page : option zathura_page_t) : option zathura_document_t :=
  match page with
  | None => None
  | Some p => page_document p
  end.

Definition zathura_document_get_data (document : option zathura_document_t) : option cb_document_t :=
  match document with
  | None => None
  | Some d => document_data d
  end.

(** The [size-prepared] handler: record the size in the meta-data. *)
Definition get_pixbuf_size (meta : cb_document_page_meta_t) (w h : Z) : cb_document_page_meta_t :=
  {| file := file meta; width := w; height := h |}.

Definition size_prepared (signal : option (Z * Z)) (meta : cb_document_page_meta_t) :
    cb_document_page_meta_t :=
  match signal with
  | Some (w, h) => get_pixbuf_size meta w h
  | None => meta
  end.

(** ** The plugin's functions *)

Section Plugin.
Context {L : Locale} {C : Codec}.

(** A cairo context: the source pattern set last, and what has been painted
    on the target surface. *)
Record cairo_t := {
  cairo_source : option (GdkPixbuf * Z * Z);
  cairo_target : option (GdkPixbuf * Z * Z)
}.

Definition gdk_cairo_set_source_pixbuf (cairo : cairo_t) (pixbuf : GdkPixbuf) (x y : Z) : cairo_t :=
  {| cairo_source := Some (pixbuf, x, y); cairo_target := cairo_target cairo |}.

Definition cairo_paint (cairo : cairo_t) : cairo_t :=
  {| cairo_source := cairo_source cairo; cairo_target := cairo_source cairo |}.

Definition compare_path (str1 str2 : string) : Z :=
  let ustr1 := g_utf8_casefold str1 in
  let ustr2 := g_utf8_casefold str2 in
  g_utf8_collate ustr1 ustr2.

Definition compare_pages (page1 page2 : cb_document_page_meta_t) : Z :=
  compare_path (file page1) (file page2).

(** *** read_archive *)

(** The loop over the data blocks of one entry (cb.c, 194-206).  The return
    code of [archive_read_data_block] is compared with [ARCHIVE_EOF] only. *)
Fixpoint read_data_blocks (blocks : list (Z * list byte)) (loader : GdkPixbufLoader)
    (meta : cb_document_page_meta_t) : GdkPixbufLoader * cb_document_page_meta_t :=
  match blocks with
  | [] => (loader, meta)
  | (r, buf) :: blocks' =>
      if r =? ARCHIVE_EOF then (loader, meta)
      else if Z.of_nat (length buf) <=? 0 then read_data_blocks blocks' loader meta
      else
        let '(ok, signal, loader') := gdk_pixbuf_loader_write loader buf in
        let meta' := size_prepared signal meta in
        if negb ok then (loader', meta')
        else if (0 <? width meta') || (0 <? height meta') then (loader', meta')
        else read_data_blocks blocks' loader' meta'
  end.

(** The meta-data of an entry after its data went through a fresh loader
    and the loader was closed (cb.c, 185-209). *)
Definition read_meta (path : string) (blocks : list (Z * list byte)) : cb_document_page_meta_t :=
  let meta := {| file := path; width := 0; height := 0 |} in
  let loader := gdk_pixbuf_loader_new in
  let '(loader, meta) := read_data_blocks blocks loader meta in
  size_prepared (gdk_pixbuf_loader_close loader) meta.

(** The body run for the first supported extension that matches (cb.c,
    185-217): keep the page if both dimensions are positive. *)
Definition read_page (path : string) (blocks : list (Z * list byte))
    (pages : list cb_document_page_meta_t) : list cb_document_page_meta_t :=
  let meta := read_meta path blocks in
  if (0 <? width meta) && (0 <? height meta)
  then girara_list_append (Some compare_pages) pages meta
  else pages.

(** [GIRARA_LIST_FOREACH] over the supported extensions, left at the first
    match by [break]. *)
Fixpoint foreach_supported_extension (supported_extensions : list string)
    (extension : option string) (path : string) (blocks : list (Z * list byte))
    (pages : list cb_document_page_meta_t) : list cb_document_page_meta_t :=
  match supported_extensions with
  | [] => pages
  | ext :: rest =>
      if g_strcmp0 extension (Some ext) =? 0 then read_page path blocks pages
      else foreach_supported_extension rest extension path blocks pages
  end.

(** The loop over the entry headers (cb.c, 167-224), with the calls made on
    the handle on the way out. *)
Fixpoint read_entries (entries : list archive_entry) (supported_extensions : list string)
    (pages : list cb_document_page_meta_t) :
    bool * list cb_document_page_meta_t * list archive_call :=
  match entries with
  | [] => (true, pages, [call_read_close; call_read_free])
  | entry :: entries' =>
      let r := entry_header entry in
      if r =? ARCHIVE_EOF then (true, pages, [call_read_close; call_read_free])
      else if r <? ARCHIVE_WARN then (false, pages, [call_read_close; call_read_free])
      else if negb (entry_filetype entry =? AE_IFREG)
      then read_entries entries' supported_extensions pages
      else
        let path := entry_pathname entry in
        let extension := get_extension (Some path) in
        read_entries entries' supported_extensions
          (foreach_supported_extension supported_extensions extension path
             (entry_data entry) pages)
  end.

Definition read_archive (env : environment) (cb_document : cb_document_t) (archive : string)
    (supported_extensions : list string) : bool * cb_document_t * list archive_call :=
  if negb (archive_read_new env) then (false, cb_document, [])
  else
    let '(r, entries) := archive_read_open_filename env archive in
    if negb (r =? ARCHIVE_OK)
    then (false, cb_document, [call_read_new; call_read_open_filename r; call_read_free])
    else
      let '(ok, pages', calls) := read_entries entries supported_extensions (pages cb_document) in
      (ok, {| pages := pages' |}, [call_read_new; call_read_open_filename r] ++ calls).

(** *** cb_document_open *)

(** The two loops that collect the extensions of every format (cb.c, 86-97);
    [supported_extensions] is a plain girara list. *)
Definition collect_extensions (formats : list (list string)) : list string :=
  fold_left
    (fun supported extensions =>
       fold_left (fun supported ext => girara_list_append None supported ext)
         extensions supported)
    formats [].

Definition cb_document_open (env : environment) (document : option zathura_document_t) :
    zathura_error_t * option zathura_document_t * list archive_call :=
  match document with
  | None => (ZATHURA_ERROR_INVALID_ARGUMENTS, None, [])
  | Some doc =>
      let cb_document := {| pages := [] |} in
      let path := document_path doc in
      let supported_extensions := collect_extensions (gdk_pixbuf_get_formats env) in
      let '(ok, cb_document, calls) := read_archive env cb_document path supported_extensions in
      if negb ok then (ZATHURA_ERROR_UNKNOWN, Some doc, calls)
      else
        (ZATHURA_ERROR_OK,
         Some {| document_path := document_path doc;
                 number_of_pages := girara_list_size (pages cb_document);
                 document_data := Some cb_document |},
         calls)
  end.

(** *** cb_page_init *)

Definition cb_page_init (page : option zathura_page_t) : zathura_error_t * option zathura_page_t :=
  match page with
  | None => (ZATHURA_ERROR_INVALID_ARGUMENTS, None)
  | Some p =>
      let document := zathura_page_get_document page in
      let cb_document := zathura_document_get_data document in
      match document, cb_document with
      | Some _, Some cb_document =>
          match girara_list_nth (pages cb_document) (page_index p) with
          | None => (ZATHURA_ERROR_UNKNOWN, page)
          | Some meta =>
              let cb_page := {| cb_page_file := file meta |} in
              (ZATHURA_ERROR_OK,
               Some {| page_document := page_document p;
                       page_index := page_index p;
                       page_width := width meta;
                       page_height := height meta;
                       page_data := Some cb_page |})
          end
      | _, _ => (ZATHURA_ERROR_UNKNOWN, page)
      end
  end.

(** *** load_pixbuf_from_archive *)

(** The loop that copies the data blocks of the entry found into the memory
    stream (cb.c, 377-399); [None] when a block read fails. *)
Fixpoint read_stream (blocks : list (Z * list byte)) (mis : list byte) : option (list byte) :=
  match blocks with
  | [] => Some mis
  | (r, buf) :: blocks' =>
      if r =? ARCHIVE_EOF then Some mis
      else if r <? ARCHIVE_WARN then None
      else if Z.of_nat (length buf) =? 0 then read_stream blocks' mis
      else read_stream blocks' (mis ++ buf)
  end.

(** The loop over the entry headers (cb.c, 354-417). *)
Fixpoint find_entry (entries : list archive_entry) (file : string) :
    option GdkPixbuf * list archive_call :=
  match entries with
  | [] => (None, [call_read_close; call_read_free])
  | entry :: entries' =>
      let r := entry_header entry in
      if r =? ARCHIVE_EOF then (None, [call_read_close; call_read_free])
      else if r <? ARCHIVE_WARN then (None, [call_read_close; call_read_free])
      else
        let path := entry_pathname entry in
        if negb (compare_path path file =? 0) then find_entry entries' file
        else
          match read_stream (entry_data entry) [] with
          | None => (None, [call_read_close; call_read_free])
          | Some stream =>
              match gdk_pixbuf_new_from_stream stream with
              | None => (None, [call_read_close; call_read_free])
              | Some pixbuf => (Some pixbuf, [call_read_close; call_read_free])
              end
          end
  end.

Definition load_pixbuf_from_archive (env : environment) (archive file : option string) :
    option GdkPixbuf * list archive_call :=
  match archive, file with
  | Some archive, Some file =>
      if negb (archive_read_new env) then (None, [])
      else
        let '(r, entries) := archive_read_open_filename env archive in
        if negb (r =? ARCHIVE_OK)
        then (None, [call_read_new; call_read_open_filename r])
        else
          let '(pixbuf, calls) := find_entry entries file in
          (pixbuf, [call_read_new; call_read_open_filename r] ++ calls)
  | _, _ => (None, [])
  end.

(** *** cb_page_render_cairo *)

Definition cb_page_render_cairo (env : environment) (page : option zathura_page_t)
    (cb_page : option cb_page_t) (cairo : option cairo_t) (printing : bool) :
    zathura_error_t * option cairo_t * list archive_call :=
  match page, cb_page, cairo with
  | Some _, Some cb_page, Some cr =>
      match zathura_page_get_document page with
      | None => (ZATHURA_ERROR_UNKNOWN, cairo, [])
      | Some document =>
          let '(pixbuf, calls) :=
            load_pixbuf_from_archive env (Some (document_path document))
              (Some (cb_page_file cb_page)) in
          match pixbuf with
          | None => (ZATHURA_ERROR_UNKNOWN, cairo, calls)
          | Some pixbuf =>
              (ZATHURA_ERROR_OK,
               Some (cairo_paint (gdk_cairo_set_source_pixbuf cr pixbuf 0 0)),
               calls)
          end
      end
  | _, _, _ => (ZATHURA_ERROR_INVALID_ARGUMENTS, cairo, [])
  end.

End Plugin.

(** ** Vocabulary of the statements *)

Section Vocabulary.
Context {L : Locale} {C : Codec}.

(** A regular file whose header is read without complaint. *)
Definition regular_file (path : string) (data : list (Z * list byte)) : archive_entry :=
  {| entry_header := ARCHIVE_OK; entry_filetype := AE_IFREG;
     entry_pathname := path; entry_data := data |}.

(** An environment in which handles can be allocated and every file name
    opens, with [ARCHIVE_OK], to the given entries. *)
Definition archive_env (formats : list (list string)) (entries : list archive_entry) : environment :=
  {| archive_read_new := true;
     archive_read_open_filename := fun _ => (ARCHIVE_OK, entries);
     gdk_pixbuf_get_formats := formats |}.

(** The page object the host creates for an index before [cb_page_init]. *)
Definition zathura_page_new (document : zathura_document_t) (index : nat) : zathura_page_t :=
  {| page_document := Some document; page_index := index;
     page_width := 0; page_height := 0; page_data := None |}.

(** The order of the page index. *)
Definition page_le (page1 page2 : cb_document_page_meta_t) : Prop :=
  compare_pages page1 page2 <= 0.

(** The page an entry contributes to the index, if any. *)
Definition entry_page (supported_extensions : list string) (entry : archive_entry) :
    option cb_document_page_meta_t :=
  if entry_filetype entry =? AE_IFREG then
    match get_extension (Some (entry_pathname entry)) with
    | None => None
    | Some extension =>
        if bool_decide (extension ∈ supported_extensions) then
          let meta := read_meta (entry_pathname entry) (entry_data entry) in
          if (0 <? width meta) && (0 <? height meta) then Some meta else None
        else None
    end
  else None.

(** Pages appended one after the other to a sorted girara list. *)
Definition append_pages (metas pages : list cb_document_page_meta_t) :
    list cb_document_page_meta_t :=
  fold_left (fun pages meta => girara_list_append (Some compare_pages) pages meta) metas pages.

(** What one entry with a sound header does to the page list. *)
Definition scan_entry (supported_extensions : list string) (entry : archive_entry)
    (pages : list cb_document_page_meta_t) : list cb_document_page_meta_t :=
  match entry_page supported_extensions entry with
  | Some meta => girara_list_append (Some compare_pages) pages meta
  | None => pages
  end.

(** The header of an entry is neither the end-of-archive mark nor an error
    below a warning. *)
Definition header_ok (entry : archive_entry) : bool :=
  negb (entry_header entry =? ARCHIVE_EOF) && negb (entry_header entry <? ARCHIVE_WARN).

(** *** The entry fetcher as the specification words it

    Open a fresh handle; iterate the entries; on the first whose path the
    comparator finds equal, gather its blocks up to the end of the entry
    and decode them.  Each way of failing has a name of its own. *)
Inductive fetch_result :=
| Bitmap (pixbuf : GdkPixbuf)
| NotFound
| ArchiveOpenError
| ArchiveCorrupt
| DecodeError.

(** The block reads of an entry up to its end. *)
Fixpoint blocks_before_eof (blocks : list (Z * list byte)) : list (Z * list byte) :=
  match blocks with
  | [] => []
  | (r, buf) :: rest => if r =? ARCHIVE_EOF then [] else (r, buf) :: blocks_before_eof rest
  end.

Definition entry_content (blocks : list (Z * list byte)) : option (list byte) :=
  let reads := blocks_before_eof blocks in
  if existsb (fun read => fst read <? ARCHIVE_WARN) reads then None
  else Some (concat (map snd reads)).

Definition fetch_found (entry : archive_entry) : fetch_result :=
  match entry_content (entry_data entry) with
  | None => ArchiveCorrupt
  | Some content =>
      match gdk_pixbuf_new_from_stream content with
      | None => DecodeError
      | Some pixbuf => Bitmap pixbuf
      end
  end.

Fixpoint fetch_entries (entries : list archive_entry) (entry_path : string) : fetch_result :=
  match entries with
  | [] => NotFound
  | entry :: rest =>
      if entry_header entry =? ARCHIVE_EOF then NotFound
      else if entry_header entry <? ARCHIVE_WARN then ArchiveCorrupt
      else if compare_path (entry_pathname entry) entry_path =? 0 then fetch_found entry
      else fetch_entries rest entry_path
  end.

Definition fetch (env : environment) (archive_path entry_path : string) : fetch_result :=
  if archive_read_new env then
    let '(r, entries) := archive_read_open_filename env archive_path in
    if r =? ARCHIVE_OK then fetch_entries entries entry_path else ArchiveOpenError
  else ArchiveOpenError.

(** What a caller of [load_pixbuf_from_archive] sees of a [fetch_result]. *)
Definition bitmap_of (result : fetch_result) : option GdkPixbuf :=
  match result with
  | Bitmap pixbuf => Some pixbuf
  | _ => None
  end.

(** *** What a scan reads

    The entries whose headers the loop of [read_archive] gets past, and
    whether the loop ends at the end of the archive rather than on an
    error. *)
Fixpoint entries_scanned (entries : list archive_entry) : list archive_entry :=
  match entries with
  | [] => []
  | entry :: rest => if header_ok entry then entry :: entries_scanned rest else []
  end.

Fixpoint scan_completes (entries : list archive_entry) : bool :=
  match entries with
  | [] => true
  | entry :: rest =>
      if header_ok entry then scan_completes rest else entry_header entry =? ARCHIVE_EOF
  end.

(** What the fetcher makes of the entry it stops at (cb.c, 366-412). *)
Definition load_entry (entry : archive_entry) : option GdkPixbuf :=
  match read_stream (entry_data entry) [] with
  | None => None
  | Some stream => gdk_pixbuf_new_from_stream stream
  end.

(** An entry with another header code. *)
Definition with_header (r : Z) (entry : archive_entry) : archive_entry :=
  {| entry_header := r; entry_filetype := entry_filetype entry;
     entry_pathname := entry_pathname entry; entry_data := entry_data entry |}.

End Vocabulary.

(** ** A locale and a codec to run the plugin on *)

(** The C locale restricted to ASCII: folding lowers [A]-[Z], collation is
    [strcmp]. *)
Definition ascii_tolower (c : ascii) : ascii :=
  let n := N_of_ascii c in
  if ((65 <=? n) && (n <=? 90))%N then ascii_of_N (n + 32) else c.

Fixpoint ascii_casefold (s : string) : string :=
  match s with
  | EmptyString => EmptyString
  | String c t => String (ascii_tolower c) (ascii_casefold t)
  end.

Definition posix_locale : Locale :=
  {| g_utf8_casefold := ascii_casefold; g_utf8_collate := strcmp |}.

(** A minimal image format: the byte [0x49], one byte of width, one byte of
    height, then the pixels.  The loader buffers what it is given, rejects a
    wrong first byte, and announces the size once, as soon as the three
    header bytes are there. *)
Definition byte_value (b : byte) : Z := Z.of_N (Byte.to_N b).

Definition sample_header (buffer : list byte) : option (Z * Z) :=
  match buffer with
  | magic :: w :: h :: _ =>
      if Byte.eqb magic x49 then Some (byte_value w, byte_value h) else None
  | _ => None
  end.

Definition sample_rejects (buffer : list byte) : bool :=
  match buffer with
  | magic :: _ => negb (Byte.eqb magic x49)
  | [] => false
  end.

Definition sample_write (loader : list byte * bool) (buf : list byte) :
    bool * option (Z * Z) * (list byte * bool) :=
  let '(buffer, announced) := loader in
  let buffer' := buffer ++ buf in
  if sample_rejects buffer' then (false, None, (buffer', announced))
  else if announced then (true, None, (buffer', announced))
  else
    match sample_header buffer' with
    | Some size => (true, Some size, (buffer', true))
    | None => (true, None, (buffer', false))
    end.

Definition sample_decode (content : list byte) : option (Z * Z * list byte) :=
  match sample_header content with
  | Some (w, h) =>
      if (0 <? w) && (0 <? h) then Some (w, h, drop 3 content) else None
  | None => None
  end.

Definition sample_codec : Codec :=
  {| GdkPixbuf := Z * Z * list byte;
     GdkPixbufLoader := list byte * bool;
     gdk_pixbuf_loader_new := ([], false);
     gdk_pixbuf_loader_write := sample_write;
     gdk_pixbuf_loader_close := fun _ => None;
     gdk_pixbuf_new_from_stream := sample_decode |}.

(** Sample images and archives. *)
Definition image_30x30 : list byte := [x49; x1e; x1e; x00; x01; x02].
Definition image_50x50 : list byte := [x49; x32; x32; xff].
Definition image_10x10 : list byte := [x49; x0a; x0a].
Definition not_an_image : list byte := [x6e; x6f; x70; x65].

Definition one_block (content : list byte) : list (Z * list byte) := [(ARCHIVE_OK, content)].

Definition sample_document : zathura_document_t :=
  {| document_path := "comic.cbz"; number_of_pages := 0%nat; document_data := None |}.

Definition sample_entries : list archive_entry :=
  [ regular_file "b.png" (one_block image_50x50);
    regular_file "a.txt" (one_block not_an_image);
    regular_file "a.png" (one_block image_30x30) ].

Definition sample_formats : list (list string) := [["png"]; ["jpg"]].

(** The sample archive with its first two entries exchanged. *)
Definition reordered_entries : list archive_entry :=
  [ regular_file "a.txt" (one_block not_an_image);
    regular_file "b.png" (one_block image_50x50);
    regular_file "a.png" (one_block image_30x30) ].

(** Two entries whose paths differ in case only, in both physical orders. *)
Definition case_variant_entries : list archive_entry :=
  [ regular_file "A.png" (one_block image_10x10);
    regular_file "a.png" (one_block image_30x30) ].

Definition case_variant_entries_swapped : list archive_entry :=
  [ regular_file "a.png" (one_block image_30x30);
    regular_file "A.png" (one_block image_10x10) ].

(** An archive whose only entry has a recognised extension and no image in it. *)
Definition corrupt_entries : list archive_entry :=
  [ regular_file "corrupt.png" (one_block not_an_image) ].

(** An archive whose only entry answers its first block read with
    [ARCHIVE_FATAL]. *)
Definition failing_block_entries : list archive_entry :=
  [ regular_file "a.png" [(ARCHIVE_FATAL, [])] ].

(** Five pages, the block read of the third answering [ARCHIVE_FATAL]. *)
Definition five_entries_third_failing : list archive_entry :=
  [ regular_file "p1.png" (one_block image_10x10);
    regular_file "p2.png" (one_block image_10x10);
    regular_file "p3.png" [(ARCHIVE_FATAL, [])];
    regular_file "p4.png" (one_block image_10x10);
    regular_file "p5.png" (one_block image_10x10) ].

(** An environment in which no file name opens: the file is missing or is
    no archive. *)
Definition missing_archive_env (formats : list (list string)) : environment :=
  {| archive_read_new := true;
     archive_read_open_filename := fun _ => (ARCHIVE_FATAL, []);
     gdk_pixbuf_get_formats := formats |}.

(** The document the sample archive opens to. *)
Definition sample_index : cb_document_t :=
  {| pages := [ {| file := "a.png"; width := 30; height := 30 |};
                {| file := "b.png"; width := 50; height := 50 |} ] |}.

Definition sample_opened_document : zathura_document_t :=
  {| document_path := "comic.cbz"; number_of_pages := 2%nat;
     document_data := Some sample_index |}.

(** * Properties *)

(** Membership in a list given by its elements. *)
Ltac list_member :=
  simpl concat; rewrite ?elem_of_cons, ?elem_of_nil;
  first [ intuition congruence | intuition discriminate ].

(** ** Strings *)

Lemma char_code_inj (a b : ascii) : char_code a = char_code b -> a = b.
Proof.
  unfold char_code. intros H. apply N2Z.inj in H.
  rewrite <- (ascii_N_embedding a), <- (ascii_N_embedding b). now rewrite H.
Qed.

Lemma strcmp_refl (s : string) : strcmp s s = 0.
Proof. induction s as [|c t IH]; simpl; [reflexivity|]. now rewrite Z.eqb_refl. Qed.

Lemma strcmp_eq (s1 s2 : string) : strcmp s1 s2 = 0 <-> s1 = s2.
Proof.
  split; [|intros ->; apply strcmp_refl].
  revert s2. induction s1 as [|c1 t1 IH]; intros [|c2 t2]; simpl; try easy.
  destruct (Z.eqb_spec (char_code c1) (char_code c2)) as [Hc|Hc].
  - intros H. apply char_code_inj in Hc. apply IH in H. now subst.
  - lia.
Qed.

Lemma g_strcmp0_eq (str : option string) (ext : string) :
  g_strcmp0 str (Some ext) = 0 <-> str = Some ext.
Proof.
  destruct str as [s|]; simpl.
  - rewrite strcmp_eq. split; congruence.
  - split; [lia | discriminate].
Qed.

Lemma strcmp_total (a b : string) : 0 < strcmp a b -> strcmp b a <= 0.
Proof.
  revert b. induction a as [|c1 t1 IH]; intros [|c2 t2]; simpl; try lia.
  rewrite (Z.eqb_sym (char_code c2)).
  destruct (Z.eqb_spec (char_code c1) (char_code c2)); [apply IH | lia].
Qed.

Lemma strcmp_antisym (a b : string) : strcmp a b <= 0 -> strcmp b a <= 0 -> strcmp a b = 0.
Proof.
  revert b. induction a as [|c1 t1 IH]; intros [|c2 t2]; simpl; try lia.
  rewrite (Z.eqb_sym (char_code c2)).
  destruct (Z.eqb_spec (char_code c1) (char_code c2)); [apply IH | lia].
Qed.

Lemma strcmp_trans (a b c : string) : strcmp a b <= 0 -> strcmp b c <= 0 -> strcmp a c <= 0.
Proof.
  revert b c. induction a as [|c1 t1 IH]; intros [|c2 t2] [|c3 t3]; simpl; try lia.
  destruct (Z.eqb_spec (char_code c1) (char_code c2)) as [E12|N12];
    destruct (Z.eqb_spec (char_code c2) (char_code c3)) as [E23|N23];
    destruct (Z.eqb_spec (char_code c1) (char_code c3)) as [E13|N13];
    try lia.
  apply IH.
Qed.

Lemma posix_collation : Collation posix_locale.
Proof.
  split; simpl.
  - apply strcmp_total.
  - apply strcmp_trans.
  - apply strcmp_antisym.
Qed.

Lemma strrchr_None (s : string) (c : ascii) : strrchr s c = None <-> has_char c s = false.
Proof.
  induction s as [|a t IH]; simpl; [easy|].
  destruct (strrchr t c) as [res|].
  - split; [discriminate|]. intros H. apply orb_false_elim in H as [_ H].
    apply IH in H. discriminate.
  - destruct IH as [IH _]. rewrite (IH eq_refl), orb_false_r.
    destruct (Ascii.eqb a c); easy.
Qed.

Lemma strrchr_Some (s res : string) (c : ascii) :
  strrchr s c = Some res ->
  exists pre t, s = String.append pre res /\ res = String c t /\ has_char c t = false.
Proof.
  revert res. induction s as [|a t IH]; simpl; [discriminate|]. intros res.
  destruct (strrchr t c) as [res'|] eqn:E.
  - intros [= <-]. destruct (IH res' eq_refl) as (pre & t' & -> & Hres & Hno).
    exists (String a pre), t'. now rewrite Hres in *.
  - destruct (Ascii.eqb_spec a c) as [->|]; [|discriminate].
    intros [= <-]. exists EmptyString, t. repeat split. now apply strrchr_None.
Qed.

(** [get_extension] yields what follows the last dot, and nothing for a
    path without a dot. *)
Lemma get_extension_spec (path : string) :
  match get_extension (Some path) with
  | None => has_char "." path = false
  | Some extension =>
      has_char "." extension = false /\
      exists stem, path = String.append stem (String "." extension)
  end.
Proof.
  unfold get_extension. destruct (strrchr path ".") as [res|] eqn:E.
  - apply strrchr_Some in E as (pre & t & -> & -> & Hno). simpl. eauto.
  - now apply strrchr_None.
Qed.

Lemma get_extension_dot (stem extension : string) :
  has_char "." extension = false ->
  get_extension (Some (String.append stem (String "." extension))) = Some extension.
Proof.
  intros Hno. unfold get_extension.
  assert (H : strrchr (String.append stem (String "." extension)) "."
              = Some (String "." extension)).
  { induction stem as [|a t IH]; simpl.
    - apply strrchr_None in Hno. now rewrite Hno.
    - now rewrite IH. }
  now rewrite H.
Qed.

(** ** The sorted page list *)

Section PageList.
Context {L : Locale} {C : Codec}.

Lemma g_list_insert_sorted_perm {A} (func : A -> A -> Z) (l : list A) (data : A) :
  g_list_insert_sorted l data func ≡ₚ data :: l.
Proof.
  induction l as [|x tl IH]; simpl; [reflexivity|].
  destruct (0 <? func data x); [|reflexivity].
  rewrite IH. apply Permutation_swap.
Qed.

Lemma append_pages_perm (metas pages : list cb_document_page_meta_t) :
  append_pages metas pages ≡ₚ metas ++ pages.
Proof.
  revert pages. induction metas as [|m metas IH]; intros pages; simpl; [reflexivity|].
  unfold append_pages in *. simpl. rewrite IH, g_list_insert_sorted_perm.
  symmetry. apply Permutation_middle.
Qed.

Lemma append_pages_length (metas : list cb_document_page_meta_t) :
  length (append_pages metas []) = length metas.
Proof. now rewrite append_pages_perm, app_nil_r. Qed.

Section Sorted.
Context `{!Collation L}.

Lemma page_le_total (a b : cb_document_page_meta_t) : 0 < compare_pages a b -> page_le b a.
Proof using Type*. apply collate_total. Qed.

Lemma page_le_trans (a b c : cb_document_page_meta_t) : page_le a b -> page_le b c -> page_le a c.
Proof using Type*. apply collate_trans. Qed.

Lemma page_le_antisym (a b : cb_document_page_meta_t) :
  page_le a b -> page_le b a -> compare_pages a b = 0.
Proof using Type*. apply collate_antisym. Qed.

Lemma g_list_insert_sorted_sorted (l : list cb_document_page_meta_t)
    (data : cb_document_page_meta_t) :
  StronglySorted page_le l -> StronglySorted page_le (g_list_insert_sorted l data compare_pages).
Proof using Type*.
  induction 1 as [|x tl Htl IH Hx]; simpl.
  - repeat constructor.
  - destruct (Z.ltb_spec 0 (compare_pages data x)) as [Hgt|Hle].
    + constructor; [exact IH|].
      rewrite g_list_insert_sorted_perm. constructor; [|exact Hx].
      now apply page_le_total.
    + constructor; [now constructor|].
      constructor; [exact Hle|].
      eapply Forall_impl; [exact Hx|]. intros y Hy. now apply page_le_trans with x.
Qed.

Lemma append_pages_sorted (metas pages : list cb_document_page_meta_t) :
  StronglySorted page_le pages -> StronglySorted page_le (append_pages metas pages).
Proof using Type*.
  revert pages. induction metas as [|m metas IH]; intros pages Hs; [exact Hs|].
  apply IH. now apply g_list_insert_sorted_sorted.
Qed.

(** The page list does not depend on the order in which the pages were
    appended, as long as pages that tie under the comparator are equal. *)
Lemma append_pages_order (metas1 metas2 : list cb_document_page_meta_t) :
  metas1 ≡ₚ metas2 ->
  (forall m1 m2, m1 ∈ metas1 -> m2 ∈ metas1 -> compare_pages m1 m2 = 0 -> m1 = m2) ->
  append_pages metas1 [] = append_pages metas2 [].
Proof using Type*.
  intros Hperm Hties.
  apply (StronglySorted_unique_strong page_le).
  - intros x1 x2 H1 H2 H12 H21.
    apply Hties.
    + rewrite append_pages_perm, app_nil_r in H1. exact H1.
    + rewrite append_pages_perm, app_nil_r, <- Hperm in H2. exact H2.
    + now apply page_le_antisym.
  - apply append_pages_sorted. constructor.
  - apply append_pages_sorted. constructor.
  - now rewrite !append_pages_perm, !app_nil_r.
Qed.

End Sorted.
End PageList.

(** ** The scanner *)

Section Scanner.
Context {L : Locale} {C : Codec}.

Lemma collect_extensions_concat (formats : list (list string)) :
  collect_extensions formats = concat formats.
Proof.
  unfold collect_extensions.
  assert (Hin : forall extensions supported : list string,
    fold_left (fun supported ext => girara_list_append None supported ext) extensions supported
    = supported ++ extensions).
  { induction extensions as [|e extensions IH]; intros supported; simpl.
    - now rewrite app_nil_r.
    - rewrite IH. unfold girara_list_append. now rewrite <- app_assoc. }
  assert (Hout : forall (formats : list (list string)) (supported : list string),
    fold_left
      (fun supported extensions =>
         fold_left (fun supported ext => girara_list_append None supported ext)
           extensions supported) formats supported
    = supported ++ concat formats).
  { clear formats. induction formats as [|f formats IH]; intros supported; simpl.
    - now rewrite app_nil_r.
    - rewrite IH, Hin. now rewrite <- app_assoc. }
  apply Hout.
Qed.

(** The loop over the supported extensions runs the page body exactly when
    the extension of the entry is one of them, by string equality. *)
Lemma foreach_supported_extension_spec (supported_extensions : list string)
    (extension : option string) (path : string) (blocks : list (Z * list byte))
    (pages : list cb_document_page_meta_t) :
  foreach_supported_extension supported_extensions extension path blocks pages =
  match extension with
  | Some x =>
      if bool_decide (x ∈ supported_extensions) then read_page path blocks pages else pages
  | None => pages
  end.
Proof.
  induction supported_extensions as [|ext rest IH]; simpl.
  - destruct extension; reflexivity.
  - destruct (Z.eqb_spec (g_strcmp0 extension (Some ext)) 0) as [Heq|Hne].
    + apply g_strcmp0_eq in Heq as ->.
      rewrite bool_decide_eq_true_2; [reflexivity | left].
    + rewrite IH. destruct extension as [x|]; [|reflexivity].
      assert (x <> ext) by (intros ->; apply Hne; now apply g_strcmp0_eq).
      destruct (bool_decide (x ∈ rest)) eqn:E.
      * apply bool_decide_eq_true_1 in E.
        rewrite bool_decide_eq_true_2; [reflexivity | now right].
      * apply bool_decide_eq_false_1 in E.
        rewrite bool_decide_eq_false_2; [reflexivity|].
        intros Hin. apply elem_of_cons in Hin as [?|?]; contradiction.
Qed.

Lemma read_entries_cons (entry : archive_entry) (entries : list archive_entry)
    (supported_extensions : list string) (pages : list cb_document_page_meta_t) :
  header_ok entry = true ->
  read_entries (entry :: entries) supported_extensions pages =
  read_entries entries supported_extensions (scan_entry supported_extensions entry pages).
Proof.
  unfold header_ok. intros H. apply andb_prop in H as [H1 H2].
  apply negb_true_iff in H1, H2. cbn [read_entries]. rewrite H1, H2.
  unfold scan_entry, entry_page.
  destruct (entry_filetype entry =? AE_IFREG); cbn [negb]; [|reflexivity].
  rewrite foreach_supported_extension_spec.
  destruct (get_extension (Some (entry_pathname entry))) as [x|]; [|reflexivity].
  destruct (bool_decide (x ∈ supported_extensions)); [|reflexivity].
  unfold read_page.
  destruct ((0 <? width _) && (0 <? height _)); reflexivity.
Qed.

Lemma read_entries_calls (entries : list archive_entry) (supported_extensions : list string)
    (pages : list cb_document_page_meta_t) :
  (read_entries entries supported_extensions pages).2 = [call_read_close; call_read_free].
Proof.
  revert pages. induction entries as [|e entries IH]; intros pages; simpl; [reflexivity|].
  destruct (entry_header e =? ARCHIVE_EOF); [reflexivity|].
  destruct (entry_header e <? ARCHIVE_WARN); [reflexivity|].
  destruct (negb (entry_filetype e =? AE_IFREG)); apply IH.
Qed.

Lemma append_pages_scan (supported_extensions : list string) (entries : list archive_entry)
    (pages : list cb_document_page_meta_t) :
  fold_left (fun pages entry => scan_entry supported_extensions entry pages) entries pages
  = append_pages (omap (entry_page supported_extensions) entries) pages.
Proof.
  revert pages. induction entries as [|e entries IH]; intros pages; simpl; [reflexivity|].
  rewrite IH. unfold scan_entry. destruct (entry_page supported_extensions e); reflexivity.
Qed.

(** With sound headers throughout, the scan succeeds and appends the page
    of every entry that has one. *)
Lemma read_entries_ok (entries : list archive_entry) (supported_extensions : list string)
    (pages : list cb_document_page_meta_t) :
  forallb header_ok entries = true ->
  read_entries entries supported_extensions pages =
  (true, append_pages (omap (entry_page supported_extensions) entries) pages,
   [call_read_close; call_read_free]).
Proof.
  rewrite <- append_pages_scan.
  revert pages. induction entries as [|e entries IH]; intros pages Hok; [reflexivity|].
  simpl in Hok. apply andb_prop in Hok as [He Hok].
  rewrite read_entries_cons by exact He. now apply IH.
Qed.

(** A header error below a warning, met before the end-of-archive mark,
    makes the scan fail. *)
Lemma read_entries_error (entries : list archive_entry) (supported_extensions : list string)
    (pages : list cb_document_page_meta_t) :
  Forall (fun entry => entry_header entry <> ARCHIVE_EOF) entries ->
  forallb header_ok entries = false ->
  (read_entries entries supported_extensions pages).1.1 = false.
Proof.
  intros Hne. revert pages. induction Hne as [|e entries He Hne IH]; intros pages; simpl.
  - discriminate.
  - unfold header_ok at 1. apply Z.eqb_neq in He. rewrite He. simpl.
    destruct (entry_header e <? ARCHIVE_WARN); simpl; [reflexivity|].
    intros Hrest. destruct (negb (entry_filetype e =? AE_IFREG)); now apply IH.
Qed.

(** [cb_document_open] on an archive that opens: the index holds the pages
    of the entries, or the open fails as a whole. *)
Lemma cb_document_open_archive_env (formats : list (list string))
    (entries : list archive_entry) (doc : zathura_document_t) :
  Forall (fun entry => entry_header entry <> ARCHIVE_EOF) entries ->
  cb_document_open (archive_env formats entries) (Some doc) =
  if forallb header_ok entries then
    let index := append_pages (omap (entry_page (concat formats)) entries) [] in
    (ZATHURA_ERROR_OK,
     Some {| document_path := document_path doc;
             number_of_pages := length index;
             document_data := Some {| pages := index |} |},
     [call_read_new; call_read_open_filename ARCHIVE_OK; call_read_close; call_read_free])
  else
    (ZATHURA_ERROR_UNKNOWN, Some doc,
     [call_read_new; call_read_open_filename ARCHIVE_OK; call_read_close; call_read_free]).
Proof.
  intros Hne. unfold cb_document_open, read_archive. simpl.
  rewrite collect_extensions_concat.
  destruct (forallb header_ok entries) eqn:Hok.
  - rewrite read_entries_ok by exact Hok. reflexivity.
  - pose proof (read_entries_error entries (concat formats) [] Hne Hok) as Hfail.
    pose proof (read_entries_calls entries (concat formats) []) as Hcalls.
    destruct (read_entries entries (concat formats) []) as [[ok pages'] calls].
    simpl in Hfail, Hcalls. subst. reflexivity.
Qed.

End Scanner.

(** ** Pages of single entries *)

Section EntryPages.
Context {L : Locale} {C : Codec}.

Lemma forallb_perm {A} (f : A -> bool) (l1 l2 : list A) :
  l1 ≡ₚ l2 -> forallb f l1 = forallb f l2.
Proof.
  induction 1 as [|x l1 l2 _ IH|x y l|l1 l2 l3 _ IH1 _ IH2]; simpl.
  - reflexivity.
  - now rewrite IH.
  - destruct (f x), (f y); reflexivity.
  - now rewrite IH1.
Qed.



End EntryPages.

(** ** The scenarios and properties of the specification *)

Section Scenario.
Context {L : Locale} {C : Codec}.

End Scenario.



(** ** Physical order of the entries *)

Section Ordering.
Context {L : Locale} {C : Codec}.

(** C4, amended.  Two archives that hold the same entries in different
    physical orders open to the same result, and so to the same page index,
    provided no entry stands for the end-of-archive mark and pages that tie
    under the path comparator are the same page. *)
Theorem C4_page_order_invariant `{!Collation L} (formats : list (list string))
    (entries1 entries2 : list archive_entry) (doc : zathura_document_t) :
  entries1 ≡ₚ entries2 ->
  Forall (fun entry => entry_header entry <> ARCHIVE_EOF) entries1 ->
  (forall m1 m2,
      m1 ∈ omap (entry_page (concat formats)) entries1 ->
      m2 ∈ omap (entry_page (concat formats)) entries1 ->
      compare_pages m1 m2 = 0 -> m1 = m2) ->
  cb_document_open (archive_env formats entries1) (Some doc) =
  cb_document_open (archive_env formats entries2) (Some doc).
Proof.
  intros Hperm Hne Hties.
  rewrite !cb_document_open_archive_env; [|now rewrite <- Hperm|exact Hne].
  rewrite <- (forallb_perm _ _ _ Hperm).
  destruct (forallb header_ok entries1); [|reflexivity].
  cbv zeta.
  rewrite (append_pages_order _ (omap (entry_page (concat formats)) entries2)); [reflexivity| |exact Hties].
  now rewrite Hperm.
Qed.
End Ordering.

Lemma C4_page_order_invariant_witness :
  @cb_document_open posix_locale sample_codec (archive_env sample_formats sample_entries) (Some sample_document) =
  @cb_document_open posix_locale sample_codec (archive_env sample_formats reordered_entries) (Some sample_document).
Proof.
  apply (@C4_page_order_invariant posix_locale sample_codec posix_collation).
  - apply perm_swap.
  - repeat constructor; discriminate.
  - intros m1 m2 H1 H2.
    apply list_elem_of_In in H1, H2. vm_compute in H1, H2.
    destruct H1 as [<-|[<-|[]]], H2 as [<-|[<-|[]]]; vm_compute; congruence.
Defined.

(** C4 as stated fails: [A.png] and [a.png] are different paths that tie
    under the comparator, and the page index follows their physical order. *)
Lemma C4_case_variants_counterexample :
  case_variant_entries ≡ₚ case_variant_entries_swapped /\
  NoDup (map entry_pathname case_variant_entries) /\
  @cb_document_open posix_locale sample_codec
    (archive_env sample_formats case_variant_entries) (Some sample_document) <>
  @cb_document_open posix_locale sample_codec
    (archive_env sample_formats case_variant_entries_swapped) (Some sample_document).
Proof.
  split; [apply perm_swap|]. split.
  - repeat constructor; rewrite ?elem_of_cons, ?elem_of_nil; intuition discriminate.
  - vm_compute. discriminate.
Qed.

(** ** Entries that are no images, and read errors *)

Section Undecodable.
Context {L : Locale} {C : Codec}.

Lemma entry_page_no_size (supported_extensions : list string) (entry : archive_entry) :
  ~ (0 < width (read_meta (entry_pathname entry) (entry_data entry)) /\
     0 < height (read_meta (entry_pathname entry) (entry_data entry))) ->
  entry_page supported_extensions entry = None.
Proof.
  intros Hsize. unfold entry_page.
  destruct (entry_filetype entry =? AE_IFREG); [|reflexivity].
  destruct (get_extension (Some (entry_pathname entry))); [|reflexivity].
  destruct (bool_decide _); [|reflexivity].
  destruct (Z.ltb_spec 0 (width (read_meta (entry_pathname entry) (entry_data entry))));
    destruct (Z.ltb_spec 0 (height (read_meta (entry_pathname entry) (entry_data entry))));
    simpl; try reflexivity.
  exfalso. apply Hsize. now split.
Qed.

Lemma read_entries_app (before after1 after2 : list archive_entry)
    (supported_extensions : list string) :
  (forall pages, read_entries after1 supported_extensions pages
                 = read_entries after2 supported_extensions pages) ->
  forall pages, read_entries (before ++ after1) supported_extensions pages
                = read_entries (before ++ after2) supported_extensions pages.
Proof.
  intros Hafter. induction before as [|e before IH]; intros pages; [apply Hafter|].
  cbn [app read_entries].
  destruct (entry_header e =? ARCHIVE_EOF); [reflexivity|].
  destruct (entry_header e <? ARCHIVE_WARN); [reflexivity|].
  destruct (negb (entry_filetype e =? AE_IFREG)); apply IH.
Qed.

(** C5.  An entry whose data never gives the loader two positive dimensions
    adds no page and does not disturb the scan of the entries around it,
    whatever its extension; an archive made of one such entry opens with
    zero pages. *)
Theorem C5_undecodable_entry_skipped (supported_extensions : list string)
    (before after : list archive_entry) (entry : archive_entry)
    (pages : list cb_document_page_meta_t) :
  header_ok entry = true ->
  ~ (0 < width (read_meta (entry_pathname entry) (entry_data entry)) /\
     0 < height (read_meta (entry_pathname entry) (entry_data entry))) ->
  read_entries (before ++ entry :: after) supported_extensions pages =
    read_entries (before ++ after) supported_extensions pages /\
  forall formats doc,
    cb_document_open (archive_env formats [entry]) (Some doc) =
    (ZATHURA_ERROR_OK,
     Some {| document_path := document_path doc; number_of_pages := 0;
             document_data := Some {| pages := [] |} |},
     [call_read_new; call_read_open_filename ARCHIVE_OK; call_read_close; call_read_free]).
Proof.
  intros Hok Hsize. split.
  - apply read_entries_app. intros pages'.
    rewrite read_entries_cons by exact Hok.
    unfold scan_entry. now rewrite entry_page_no_size.
  - intros formats doc.
    assert (Hne : entry_header entry <> ARCHIVE_EOF).
    { unfold header_ok in Hok. apply andb_prop in Hok as [Hok _].
      apply negb_true_iff in Hok. now apply Z.eqb_neq. }
    rewrite cb_document_open_archive_env by (constructor; [exact Hne|constructor]).
    cbn [forallb]. rewrite Hok. cbn [andb omap list_omap].
    rewrite entry_page_no_size by exact Hsize. reflexivity.
Qed.

End Undecodable.

Lemma C5_undecodable_entry_skipped_witness :
  @read_entries posix_locale sample_codec
    ([] ++ regular_file "corrupt.png" (one_block not_an_image) :: sample_entries)
    ["png"; "jpg"] [] =
  @read_entries posix_locale sample_codec ([] ++ sample_entries) ["png"; "jpg"] [] /\
  forall formats doc,
    @cb_document_open posix_locale sample_codec (archive_env formats corrupt_entries) (Some doc) =
    (ZATHURA_ERROR_OK,
     Some {| document_path := document_path doc; number_of_pages := 0;
             document_data := Some {| pages := [] |} |},
     [call_read_new; call_read_open_filename ARCHIVE_OK; call_read_close; call_read_free]).
Proof.
  apply (@C5_undecodable_entry_skipped posix_locale sample_codec).
  - reflexivity.
  - vm_compute. intros [H _]. discriminate H.
Defined.

(** A header error below a warning makes the open fail as a whole, and the
    document is left as it was. *)
Lemma cb_document_open_header_error {L : Locale} {C : Codec} (formats : list (list string))
    (before after : list archive_entry) (entry : archive_entry) (doc : zathura_document_t) :
  forallb header_ok before = true ->
  entry_header entry < ARCHIVE_WARN ->
  cb_document_open (archive_env formats (before ++ entry :: after)) (Some doc) =
  (ZATHURA_ERROR_UNKNOWN, Some doc,
   [call_read_new; call_read_open_filename ARCHIVE_OK; call_read_close; call_read_free]).
Proof.
  intros Hbefore Herr. unfold cb_document_open, read_archive. simpl.
  assert (Hscan : forall pages,
    (read_entries (before ++ entry :: after) (collect_extensions formats) pages).1.1 = false).
  { induction before as [|e before IH]; intros pages.
    - cbn [app read_entries].
      replace (entry_header entry =? ARCHIVE_EOF) with false
        by (symmetry; apply Z.eqb_neq; unfold ARCHIVE_EOF, ARCHIVE_WARN in *; lia).
      replace (entry_header entry <? ARCHIVE_WARN) with true
        by (symmetry; now apply Z.ltb_lt).
      reflexivity.
    - simpl in Hbefore. apply andb_prop in Hbefore as [He Hbefore].
      cbn [app]. rewrite read_entries_cons by exact He. now apply IH. }
  pose proof (Hscan []) as Hfail.
  pose proof (read_entries_calls (before ++ entry :: after) (collect_extensions formats) [])
    as Hcalls.
  destruct (read_entries _ _ _) as [[ok pages'] calls].
  simpl in Hfail, Hcalls. subst. reflexivity.
Qed.

(** Whatever a block read returns, short of [ARCHIVE_EOF], the scanner goes
    on as if it had succeeded. *)
Lemma read_data_blocks_ignores_code {C : Codec} (r1 r2 : Z) (buf : list byte)
    (blocks : list (Z * list byte)) (loader : GdkPixbufLoader)
    (meta : cb_document_page_meta_t) :
  r1 <> ARCHIVE_EOF -> r2 <> ARCHIVE_EOF ->
  read_data_blocks ((r1, buf) :: blocks) loader meta =
  read_data_blocks ((r2, buf) :: blocks) loader meta.
Proof.
  intros H1 H2. cbn [read_data_blocks].
  apply Z.eqb_neq in H1, H2. now rewrite H1, H2.
Qed.

(** C2, where the code departs from it.  The scanner compares the result of
    a block read with [ARCHIVE_EOF] only: an entry whose block read answers
    [ARCHIVE_FATAL] is scanned like any other and the open succeeds, with
    no page when it is the only entry and with the four other pages when it
    is the third entry of five, while the fetcher, on the same archive,
    gives up on that read. *)
Theorem C2_data_block_error_ignored :
  @cb_document_open posix_locale sample_codec
    (archive_env sample_formats failing_block_entries) (Some sample_document) =
    (ZATHURA_ERROR_OK,
     Some {| document_path := "comic.cbz"; number_of_pages := 0;
             document_data := Some {| pages := [] |} |},
     [call_read_new; call_read_open_filename ARCHIVE_OK; call_read_close; call_read_free]) /\
  @cb_document_open posix_locale sample_codec
    (archive_env sample_formats five_entries_third_failing) (Some sample_document) =
    (ZATHURA_ERROR_OK,
     Some {| document_path := "comic.cbz"; number_of_pages := 4;
             document_data := Some {| pages :=
               [ {| file := "p1.png"; width := 10; height := 10 |};
                 {| file := "p2.png"; width := 10; height := 10 |};
                 {| file := "p4.png"; width := 10; height := 10 |};
                 {| file := "p5.png"; width := 10; height := 10 |} ] |} |},
     [call_read_new; call_read_open_filename ARCHIVE_OK; call_read_close; call_read_free]) /\
  @load_pixbuf_from_archive posix_locale sample_codec
    (archive_env sample_formats failing_block_entries) (Some "comic.cbz") (Some "a.png") =
    (None, [call_read_new; call_read_open_filename ARCHIVE_OK; call_read_close; call_read_free]).
Proof. repeat split; vm_compute; reflexivity. Qed.

(** ** The entry fetcher *)

Section Fetcher.
Context {L : Locale} {C : Codec}.

(** The copying loop gathers the blocks read before the end of the entry,
    unless one of those reads failed. *)
Lemma read_stream_content (blocks : list (Z * list byte)) (mis : list byte) :
  read_stream blocks mis = option_map (app mis) (entry_content blocks).
Proof.
  unfold entry_content. revert mis.
  induction blocks as [|[r buf] blocks IH]; intros mis; simpl.
  - now rewrite app_nil_r.
  - destruct (r =? ARCHIVE_EOF); simpl; [now rewrite app_nil_r|].
    destruct (r <? ARCHIVE_WARN); simpl; [reflexivity|].
    destruct (Z.eqb_spec (Z.of_nat (length buf)) 0) as [Hlen|Hlen].
    + destruct buf; [|simpl in Hlen; lia]. apply IH.
    + rewrite IH.
      destruct (existsb _ _); simpl; [reflexivity|]. now rewrite app_assoc.
Qed.

Lemma find_entry_fetch (entries : list archive_entry) (file : string) :
  (find_entry entries file).1 = bitmap_of (fetch_entries entries file).
Proof.
  induction entries as [|e entries IH]; simpl; [reflexivity|].
  destruct (entry_header e =? ARCHIVE_EOF); [reflexivity|].
  destruct (entry_header e <? ARCHIVE_WARN); [reflexivity|].
  destruct (compare_path (entry_pathname e) file =? 0); simpl; [|exact IH].
  unfold fetch_found. rewrite read_stream_content.
  destruct (entry_content (entry_data e)) as [content|]; simpl; [|reflexivity].
  destruct (gdk_pixbuf_new_from_stream content); reflexivity.
Qed.

Lemma find_entry_calls (entries : list archive_entry) (file : string) :
  (find_entry entries file).2 = [call_read_close; call_read_free].
Proof.
  induction entries as [|e entries IH]; simpl; [reflexivity|].
  destruct (entry_header e =? ARCHIVE_EOF); [reflexivity|].
  destruct (entry_header e <? ARCHIVE_WARN); [reflexivity|].
  destruct (negb (compare_path (entry_pathname e) file =? 0)); [exact IH|].
  destruct (read_stream (entry_data e) []) as [stream|]; [|reflexivity].
  destruct (gdk_pixbuf_new_from_stream stream); reflexivity.
Qed.

Lemma load_pixbuf_from_archive_fetch (env : environment) (archive file : string) :
  (load_pixbuf_from_archive env (Some archive) (Some file)).1 =
  bitmap_of (fetch env archive file).
Proof.
  unfold load_pixbuf_from_archive, fetch.
  destruct (archive_read_new env); simpl; [|reflexivity].
  destruct (archive_read_open_filename env archive) as [r entries].
  destruct (r =? ARCHIVE_OK); simpl; [|reflexivity].
  rewrite <- find_entry_fetch. now destruct (find_entry entries file).
Qed.

(** C3, amended.  [load_pixbuf_from_archive] returns the bitmap decoded from
    the first entry whose path the comparator finds equal to the one asked
    for, and [NULL] for every failure alike: archive not opened, header or
    block read error, no such entry, content that does not decode.
    [cb_page_render_cairo] paints the bitmap, or reports
    [ZATHURA_ERROR_UNKNOWN] whatever the cause. *)
Theorem C3_fetch_bitmap_or_null (env : environment) (archive file : string)
    (document : zathura_document_t) (index : nat) (cairo : cairo_t) (printing : bool) :
  (load_pixbuf_from_archive env (Some archive) (Some file)).1 =
    bitmap_of (fetch env archive file) /\
  (cb_page_render_cairo env (Some (zathura_page_new document index))
     (Some {| cb_page_file := file |}) (Some cairo) printing).1 =
    match fetch env (document_path document) file with
    | Bitmap pixbuf =>
        (ZATHURA_ERROR_OK, Some (cairo_paint (gdk_cairo_set_source_pixbuf cairo pixbuf 0 0)))
    | _ => (ZATHURA_ERROR_UNKNOWN, Some cairo)
    end.
Proof.
  split; [apply load_pixbuf_from_archive_fetch|].
  unfold cb_page_render_cairo. cbn [zathura_page_get_document zathura_page_new page_document cb_page_file].
  pose proof (load_pixbuf_from_archive_fetch env (document_path document) file) as H.
  destruct (load_pixbuf_from_archive env _ _) as [pixbuf calls]. simpl in H. subst.
  destruct (fetch env (document_path document) file); reflexivity.
Qed.

End Fetcher.

(** C3 as stated fails: an entry that is missing, one that does not decode
    and one whose block read fails all yield the same result, so that no
    reading of the result recovers the cause. *)
Lemma C3_failure_causes_counterexample :
  @fetch posix_locale sample_codec (archive_env sample_formats sample_entries)
    "comic.cbz" "c.png" = NotFound /\
  @fetch posix_locale sample_codec (archive_env sample_formats corrupt_entries)
    "comic.cbz" "corrupt.png" = DecodeError /\
  @fetch posix_locale sample_codec (archive_env sample_formats failing_block_entries)
    "comic.cbz" "a.png" = ArchiveCorrupt /\
  (@load_pixbuf_from_archive posix_locale sample_codec
     (archive_env sample_formats sample_entries) (Some "comic.cbz") (Some "c.png")).1 = None /\
  (@load_pixbuf_from_archive posix_locale sample_codec
     (archive_env sample_formats corrupt_entries) (Some "comic.cbz") (Some "corrupt.png")).1 = None /\
  (@load_pixbuf_from_archive posix_locale sample_codec
     (archive_env sample_formats failing_block_entries) (Some "comic.cbz") (Some "a.png")).1 = None /\
  ~ exists classify : option (@GdkPixbuf sample_codec) -> @fetch_result sample_codec,
      forall env archive file,
        classify (@load_pixbuf_from_archive posix_locale sample_codec env
                    (Some archive) (Some file)).1 =
        @fetch posix_locale sample_codec env archive file.
Proof.
  repeat (split; [vm_compute; reflexivity|]).
  intros [classify Hclassify].
  pose proof (Hclassify (archive_env sample_formats sample_entries) "comic.cbz" "c.png") as H1.
  pose proof (Hclassify (archive_env sample_formats corrupt_entries) "comic.cbz" "corrupt.png")
    as H2.
  vm_compute in H1, H2. congruence.
Qed.

(** ** The extension filter and the path comparator *)

Section Filter.
Context {L : Locale} {C : Codec}.

(** C6.  The extension of a path is what follows its last dot, and a path
    without a dot has none.  For every entry the scanner takes
    [get_extension] of the entry's path name and runs the page body exactly
    when the entry is a regular file and that extension equals, as a string,
    one of the supported extensions; otherwise the entry is skipped and the
    scan goes on, wherever the entry stands in the archive.  So [page.JPG]
    and [README] are skipped for the extensions [png] and [jpg]. *)
Theorem C6_extension_filter :
  (forall path : string,
      match get_extension (Some path) with
      | None => has_char "." path = false
      | Some extension =>
          has_char "." extension = false /\
          exists stem, path = String.append stem (String "." extension)
      end) /\
  (forall (supported_extensions : list string) (extension : option string) (path : string)
          (blocks : list (Z * list byte)) (pages : list cb_document_page_meta_t),
      foreach_supported_extension supported_extensions extension path blocks pages =
      match extension with
      | Some x =>
          if bool_decide (x ∈ supported_extensions) then read_page path blocks pages
          else pages
      | None => pages
      end) /\
  (forall (extension : option string) (ext : string),
      g_strcmp0 extension (Some ext) = 0 <-> extension = Some ext) /\
  (forall (blocks : list (Z * list byte)) (pages : list cb_document_page_meta_t),
      read_entries [regular_file "page.JPG" blocks] ["png"; "jpg"] pages =
        (true, pages, [call_read_close; call_read_free]) /\
      read_entries [regular_file "README" blocks] ["png"; "jpg"] pages =
        (true, pages, [call_read_close; call_read_free])) /\
  (forall (entry : archive_entry) (entries : list archive_entry)
          (supported_extensions : list string) (pages : list cb_document_page_meta_t),
      read_entries (entry :: entries) supported_extensions pages =
      if header_ok entry then
        read_entries entries supported_extensions
          (if entry_filetype entry =? AE_IFREG then
             match get_extension (Some (entry_pathname entry)) with
             | Some extension =>
                 if bool_decide (extension ∈ supported_extensions)
                 then read_page (entry_pathname entry) (entry_data entry) pages
                 else pages
             | None => pages
             end
           else pages)
      else (entry_header entry =? ARCHIVE_EOF, pages, [call_read_close; call_read_free])) /\
  (forall (supported_extensions : list string) (before after : list archive_entry)
          (entry : archive_entry) (pages : list cb_document_page_meta_t),
      header_ok entry = true ->
      (forall extension,
          get_extension (Some (entry_pathname entry)) = Some extension ->
          extension ∉ supported_extensions) ->
      read_entries (before ++ entry :: after) supported_extensions pages =
      read_entries (before ++ after) supported_extensions pages).
Proof.
  assert (Hstep : forall (entry : archive_entry) (entries : list archive_entry)
                         (supported_extensions : list string)
                         (pages : list cb_document_page_meta_t),
    read_entries (entry :: entries) supported_extensions pages =
    if header_ok entry then
      read_entries entries supported_extensions
        (if entry_filetype entry =? AE_IFREG then
           match get_extension (Some (entry_pathname entry)) with
           | Some extension =>
               if bool_decide (extension ∈ supported_extensions)
               then read_page (entry_pathname entry) (entry_data entry) pages
               else pages
           | None => pages
           end
         else pages)
    else (entry_header entry =? ARCHIVE_EOF, pages, [call_read_close; call_read_free])).
  { intros entry entries supported_extensions pages.
    cbn [read_entries]. unfold header_ok.
    destruct (entry_header entry =? ARCHIVE_EOF); [reflexivity|].
    destruct (entry_header entry <? ARCHIVE_WARN); [reflexivity|]. cbn [negb andb].
    destruct (entry_filetype entry =? AE_IFREG); cbn [negb]; [|reflexivity].
    now rewrite foreach_supported_extension_spec. }
  split; [exact get_extension_spec|].
  split; [exact foreach_supported_extension_spec|].
  split; [exact g_strcmp0_eq|].
  split; [intros blocks pages; split; reflexivity|].
  split; [exact Hstep|].
  intros supported_extensions before after entry pages Hok Hext.
  apply read_entries_app. intros pages'. rewrite Hstep, Hok.
  destruct (entry_filetype entry =? AE_IFREG); [|reflexivity].
  destruct (get_extension (Some (entry_pathname entry))) as [x|]; [|reflexivity].
  rewrite bool_decide_eq_false_2 by (now apply Hext). reflexivity.
Qed.

End Filter.

Lemma C6_extension_filter_witness :
  @read_entries posix_locale sample_codec
    ([regular_file "b.png" (one_block image_50x50)]
     ++ regular_file "page.JPG" (one_block image_10x10)
     :: [regular_file "a.png" (one_block image_30x30)]) ["png"; "jpg"] [] =
  @read_entries posix_locale sample_codec
    ([regular_file "b.png" (one_block image_50x50)]
     ++ [regular_file "a.png" (one_block image_30x30)]) ["png"; "jpg"] [].
Proof.
  destruct (@C6_extension_filter posix_locale sample_codec) as (_ & _ & _ & _ & _ & Hskip).
  apply Hskip.
  - reflexivity.
  - intros extension [= <-]. list_member.
Defined.

Section Comparator.
Context {L : Locale}.

(** C7.  [compare_path] is the collation of the case-folded operands.  It
    inherits from the collation a total preorder on paths (reflexive,
    total, transitive, with opposite signs for opposite arguments), cannot
    tell apart paths with equal foldings, and orders [A.jpg] before [b.JPG]
    exactly when [a.jpg] collates before [b.jpg]. *)
Theorem C7_compare_path_order `{!Collation L} :
  (forall a b, compare_path a b = g_utf8_collate (g_utf8_casefold a) (g_utf8_casefold b)) /\
  (forall a, compare_path a a = 0) /\
  (forall a b, compare_path a b <= 0 \/ compare_path b a <= 0) /\
  (forall a b c, compare_path a b <= 0 -> compare_path b c <= 0 -> compare_path a c <= 0) /\
  (forall a b, compare_path a b < 0 -> 0 < compare_path b a) /\
  (forall a a' b b',
      g_utf8_casefold a = g_utf8_casefold a' -> g_utf8_casefold b = g_utf8_casefold b' ->
      compare_path a b = compare_path a' b') /\
  (g_utf8_casefold "A.jpg" = "a.jpg" -> g_utf8_casefold "b.JPG" = "b.jpg" ->
   (compare_path "A.jpg" "b.JPG" < 0 <-> g_utf8_collate "a.jpg" "b.jpg" < 0)).
Proof.
  assert (Htotal : forall a b, compare_path a b <= 0 \/ compare_path b a <= 0).
  { intros a b. unfold compare_path.
    destruct (Z.lt_ge_cases 0 (g_utf8_collate (g_utf8_casefold a) (g_utf8_casefold b)))
      as [Hgt|Hle]; [right; now apply collate_total | now left]. }
  repeat split.
  - intros a. unfold compare_path.
    destruct (Htotal a a) as [H|H]; now apply collate_antisym.
  - exact Htotal.
  - intros a b c. apply collate_trans.
  - intros a b Hlt. unfold compare_path in *.
    destruct (Z.lt_ge_cases 0 (g_utf8_collate (g_utf8_casefold b) (g_utf8_casefold a)))
      as [Hgt|Hle]; [exact Hgt|].
    pose proof (collate_antisym _ _ (Z.lt_le_incl _ _ Hlt) Hle). lia.
  - intros a a' b b' Ha Hb. unfold compare_path. now rewrite Ha, Hb.
  - unfold compare_path. intros Hlt. now rewrite H, H0 in Hlt.
  - unfold compare_path. intros Hlt. now rewrite H, H0.
Qed.

End Comparator.

Lemma C7_compare_path_order_witness :
  (forall a b, @compare_path posix_locale a b = strcmp (ascii_casefold a) (ascii_casefold b)) /\
  (forall a, @compare_path posix_locale a a = 0) /\
  (forall a b, @compare_path posix_locale a b <= 0 \/ @compare_path posix_locale b a <= 0) /\
  (forall a b c, @compare_path posix_locale a b <= 0 -> @compare_path posix_locale b c <= 0 ->
                 @compare_path posix_locale a c <= 0) /\
  (forall a b, @compare_path posix_locale a b < 0 -> 0 < @compare_path posix_locale b a) /\
  (forall a a' b b',
      ascii_casefold a = ascii_casefold a' -> ascii_casefold b = ascii_casefold b' ->
      @compare_path posix_locale a b = @compare_path posix_locale a' b') /\
  (ascii_casefold "A.jpg" = "a.jpg" -> ascii_casefold "b.JPG" = "b.jpg" ->
   (@compare_path posix_locale "A.jpg" "b.JPG" < 0 <-> strcmp "a.jpg" "b.jpg" < 0)).
Proof. exact (@C7_compare_path_order posix_locale posix_collation). Defined.

(** In the ASCII locale the comparator and the byte order disagree on case. *)
Lemma compare_path_case_example :
  ascii_casefold "A.jpg" = "a.jpg" /\ ascii_casefold "b.JPG" = "b.jpg" /\
  @compare_path posix_locale "A.jpg" "b.JPG" < 0 /\ strcmp "A.jpg" "b.JPG" < 0 /\
  @compare_path posix_locale "a.jpg" "B.JPG" < 0 /\ 0 < strcmp "a.jpg" "B.JPG".
Proof. repeat split; reflexivity. Qed.

(** ** Pages, handles and arguments *)

Section Pages.
Context {L : Locale} {C : Codec}.

(** C8.  For a page whose index is not below the number of pages of its
    document, [cb_page_init] fails with [ZATHURA_ERROR_UNKNOWN] and hands
    back the page, and with it the document, as they were; such a page has
    no plugin data, so rendering it is refused before any archive is
    touched; and every index in range can still be initialised on the same
    document. *)
Theorem C8_page_index_out_of_range (page : zathura_page_t) (document : zathura_document_t)
    (cb_document : cb_document_t) :
  page_document page = Some document ->
  document_data document = Some cb_document ->
  (length (pages cb_document) <= page_index page)%nat ->
  cb_page_init (Some page) = (ZATHURA_ERROR_UNKNOWN, Some page) /\
  (forall (env : environment) (cairo : option cairo_t) (printing : bool),
      page_data page = None ->
      cb_page_render_cairo env (Some page) (page_data page) cairo printing =
      (ZATHURA_ERROR_INVALID_ARGUMENTS, cairo, [])) /\
  (forall (index : nat) (meta : cb_document_page_meta_t),
      nth_error (pages cb_document) index = Some meta ->
      cb_page_init (Some (zathura_page_new document index)) =
      (ZATHURA_ERROR_OK,
       Some {| page_document := Some document; page_index := index;
               page_width := width meta; page_height := height meta;
               page_data := Some {| cb_page_file := file meta |} |})).
Proof.
  intros Hdoc Hdata Hrange. repeat split.
  - unfold cb_page_init, zathura_page_get_document, zathura_document_get_data.
    rewrite Hdoc, Hdata. unfold girara_list_nth.
    now rewrite (proj2 (nth_error_None _ _) Hrange).
  - intros env cairo printing ->. reflexivity.
  - intros index meta Hnth. unfold cb_page_init, zathura_page_new. simpl.
    rewrite Hdata. unfold girara_list_nth. now rewrite Hnth.
Qed.

(** The scanner releases its handle on every way out. *)
Lemma read_archive_releases (env : environment) (cb_document : cb_document_t)
    (archive : string) (supported_extensions : list string) :
  handles_released (read_archive env cb_document archive supported_extensions).2.
Proof.
  unfold read_archive.
  destruct (archive_read_new env); simpl; [|now split].
  destruct (archive_read_open_filename env archive) as [r entries].
  destruct (r =? ARCHIVE_OK) eqn:Hr; simpl.
  - pose proof (read_entries_calls entries supported_extensions (pages cb_document)) as Hcalls.
    destruct (read_entries _ _ _) as [[ok pages'] calls]. simpl in *. subst calls.
    unfold handles_released. simpl. now rewrite Hr.
  - unfold handles_released. simpl. now rewrite Hr.
Qed.

(** So does the fetcher, once the archive has been opened. *)
Lemma load_pixbuf_from_archive_releases (env : environment) (archive file : string) :
  (archive_read_open_filename env archive).1 = ARCHIVE_OK ->
  handles_released (load_pixbuf_from_archive env (Some archive) (Some file)).2.
Proof.
  intros Hopen. unfold load_pixbuf_from_archive.
  destruct (archive_read_new env); simpl; [|now split].
  destruct (archive_read_open_filename env archive) as [r entries].
  simpl in Hopen. subst r. simpl.
  pose proof (find_entry_calls entries file) as Hcalls.
  destruct (find_entry entries file) as [pixbuf calls]. simpl in *. subst calls.
  now split.
Qed.

(** C9, where the code departs from it.  When [archive_read_open_filename]
    fails, [load_pixbuf_from_archive] returns without a call to
    [archive_read_free]: one handle stays allocated.  [read_archive]
    releases the handle in the same situation. *)
Theorem C9_fetcher_leaks_handle_on_open_failure :
  load_pixbuf_from_archive (missing_archive_env sample_formats)
    (Some "missing.cbz") (Some "a.png") =
    (None, [call_read_new; call_read_open_filename ARCHIVE_FATAL]) /\
  live_handles (load_pixbuf_from_archive (missing_archive_env sample_formats)
                  (Some "missing.cbz") (Some "a.png")).2 = 1 /\
  ~ handles_released (load_pixbuf_from_archive (missing_archive_env sample_formats)
                        (Some "missing.cbz") (Some "a.png")).2 /\
  read_archive (missing_archive_env sample_formats) {| pages := [] |} "missing.cbz"
    ["png"; "jpg"] =
    (false, {| pages := [] |},
     [call_read_new; call_read_open_filename ARCHIVE_FATAL; call_read_free]).
Proof.
  repeat split.
  intros [Hlive _]. simpl in Hlive. discriminate Hlive.
Qed.

(** C10.  A [NULL] document, page, page data or cairo context is answered
    with [ZATHURA_ERROR_INVALID_ARGUMENTS]; nothing is changed and no
    archive is touched. *)
Theorem C10_null_arguments (env : environment) :
  cb_document_open env None = (ZATHURA_ERROR_INVALID_ARGUMENTS, None, []) /\
  cb_page_init None = (ZATHURA_ERROR_INVALID_ARGUMENTS, None) /\
  (forall cb_page cairo printing,
      cb_page_render_cairo env None cb_page cairo printing =
      (ZATHURA_ERROR_INVALID_ARGUMENTS, cairo, [])) /\
  (forall page cairo printing,
      cb_page_render_cairo env page None cairo printing =
      (ZATHURA_ERROR_INVALID_ARGUMENTS, cairo, [])) /\
  (forall page cb_page printing,
      cb_page_render_cairo env page cb_page None printing =
      (ZATHURA_ERROR_INVALID_ARGUMENTS, None, [])).
Proof.
  repeat split.
  - intros [page|] cairo printing; reflexivity.
  - intros [page|] [cb_page|] printing; reflexivity.
Qed.

End Pages.

Lemma C8_page_index_out_of_range_witness :
  cb_page_init (Some (zathura_page_new sample_opened_document 2)) =
    (ZATHURA_ERROR_UNKNOWN, Some (zathura_page_new sample_opened_document 2)) /\
  (forall (env : environment) (cairo : option (@cairo_t sample_codec)) (printing : bool),
      page_data (zathura_page_new sample_opened_document 2) = None ->
      @cb_page_render_cairo posix_locale sample_codec env
        (Some (zathura_page_new sample_opened_document 2))
        (page_data (zathura_page_new sample_opened_document 2)) cairo printing =
      (ZATHURA_ERROR_INVALID_ARGUMENTS, cairo, [])) /\
  (forall (index : nat) (meta : cb_document_page_meta_t),
      nth_error (pages sample_index) index = Some meta ->
      cb_page_init (Some (zathura_page_new sample_opened_document index)) =
      (ZATHURA_ERROR_OK,
       Some {| page_document := Some sample_opened_document; page_index := index;
               page_width := width meta; page_height := height meta;
               page_data := Some {| cb_page_file := file meta |} |})).
Proof.
  apply (@C8_page_index_out_of_range posix_locale sample_codec
           (zathura_page_new sample_opened_document 2) sample_opened_document sample_index).
  - reflexivity.
  - reflexivity.
  - simpl. lia.
Defined.
(** * Further properties of the scanner, the page index and the fetcher *)

Section ScanFacts.
Context {L : Locale} {C : Codec}.

(** The header loop reads the entries up to the first header that is the
    end mark or an error, and ends well exactly when it is the end mark. *)
Lemma read_entries_scanned (entries : list archive_entry) (supported_extensions : list string)
    (pages : list cb_document_page_meta_t) :
  read_entries entries supported_extensions pages =
  (scan_completes entries,
   append_pages (omap (entry_page supported_extensions) (entries_scanned entries)) pages,
   [call_read_close; call_read_free]).
Proof.
  revert pages. induction entries as [|e entries IH]; intros pages; [reflexivity|].
  cbn [entries_scanned scan_completes].
  destruct (header_ok e) eqn:Hok.
  - rewrite read_entries_cons by exact Hok. rewrite IH.
    cbn [omap list_omap]. unfold scan_entry.
    destruct (entry_page supported_extensions e); reflexivity.
  - cbn [read_entries]. unfold header_ok in Hok.
    destruct (entry_header e =? ARCHIVE_EOF); [reflexivity|].
    simpl in Hok. apply negb_false_iff in Hok. rewrite Hok. reflexivity.
Qed.

Lemma cb_document_open_scanned (env : environment) (doc : zathura_document_t) :
  cb_document_open env (Some doc) =
  if archive_read_new env then
    let r := (archive_read_open_filename env (document_path doc)).1 in
    let entries := (archive_read_open_filename env (document_path doc)).2 in
    if r =? ARCHIVE_OK then
      if scan_completes entries then
        let index :=
          append_pages
            (omap (entry_page (concat (gdk_pixbuf_get_formats env))) (entries_scanned entries))
            [] in
        (ZATHURA_ERROR_OK,
         Some {| document_path := document_path doc; number_of_pages := length index;
                 document_data := Some {| pages := index |} |},
         [call_read_new; call_read_open_filename r; call_read_close; call_read_free])
      else
        (ZATHURA_ERROR_UNKNOWN, Some doc,
         [call_read_new; call_read_open_filename r; call_read_close; call_read_free])
    else (ZATHURA_ERROR_UNKNOWN, Some doc,
          [call_read_new; call_read_open_filename r; call_read_free])
  else (ZATHURA_ERROR_UNKNOWN, Some doc, []).
Proof.
  unfold cb_document_open, read_archive. rewrite collect_extensions_concat.
  destruct (archive_read_new env); [|reflexivity]. cbn [negb].
  destruct (archive_read_open_filename env (document_path doc)) as [r entries]. cbn [fst snd].
  destruct (r =? ARCHIVE_OK); cbn [negb]; [|reflexivity].
  rewrite read_entries_scanned. cbn [pages].
  destruct (scan_completes entries); reflexivity.
Qed.

(** A successful open, taken apart. *)
Lemma cb_document_open_ok_inv (env : environment) (doc doc' : zathura_document_t)
    (calls : list archive_call) :
  cb_document_open env (Some doc) = (ZATHURA_ERROR_OK, Some doc', calls) ->
  let entries := (archive_read_open_filename env (document_path doc)).2 in
  let index :=
    append_pages
      (omap (entry_page (concat (gdk_pixbuf_get_formats env))) (entries_scanned entries)) [] in
  archive_read_new env = true /\
  (archive_read_open_filename env (document_path doc)).1 = ARCHIVE_OK /\
  scan_completes entries = true /\
  doc' = {| document_path := document_path doc; number_of_pages := length index;
            document_data := Some {| pages := index |} |}.
Proof.
  rewrite cb_document_open_scanned. cbv zeta.
  destruct (archive_read_new env); [|discriminate].
  destruct (Z.eqb_spec (archive_read_open_filename env (document_path doc)).1 ARCHIVE_OK)
    as [Hr|Hr]; [|discriminate].
  destruct (scan_completes _); [|discriminate].
  intros [= <- _]. auto.
Qed.

Lemma entries_scanned_sublist (entries : list archive_entry) (entry : archive_entry) :
  entry ∈ entries_scanned entries -> entry ∈ entries /\ header_ok entry = true.
Proof.
  induction entries as [|e entries IH]; simpl; [intros H; inversion H|].
  destruct (header_ok e) eqn:Hok; [|intros H; inversion H].
  intros H. apply elem_of_cons in H as [->|H].
  - split; [left | exact Hok].
  - destruct (IH H). split; [now right | assumption].
Qed.

Lemma entries_scanned_length (entries : list archive_entry) :
  (length (entries_scanned entries) <= length entries)%nat.
Proof.
  induction entries as [|e entries IH]; simpl; [lia|].
  destruct (header_ok e); simpl; lia.
Qed.

Lemma read_data_blocks_file (blocks : list (Z * list byte)) (loader : GdkPixbufLoader)
    (meta : cb_document_page_meta_t) :
  file (read_data_blocks blocks loader meta).2 = file meta.
Proof.
  revert loader meta. induction blocks as [|[r buf] blocks IH]; intros loader meta; simpl;
    [reflexivity|].
  destruct (r =? ARCHIVE_EOF); [reflexivity|].
  destruct (Z.of_nat (length buf) <=? 0); [apply IH|].
  destruct (gdk_pixbuf_loader_write loader buf) as [[ok signal] loader'].
  assert (Hfile : file (size_prepared signal meta) = file meta)
    by (destruct signal as [[w h]|]; reflexivity).
  destruct (negb ok); [exact Hfile|].
  destruct ((0 <? width _) || (0 <? height _)); [exact Hfile|].
  now rewrite IH.
Qed.

Lemma read_meta_file (path : string) (blocks : list (Z * list byte)) :
  file (read_meta path blocks) = path.
Proof.
  unfold read_meta.
  pose proof (read_data_blocks_file blocks gdk_pixbuf_loader_new
                {| file := path; width := 0; height := 0 |}) as H.
  destruct (read_data_blocks _ _ _) as [loader meta]. simpl in H.
  destruct (gdk_pixbuf_loader_close loader) as [[w h]|]; exact H.
Qed.

(** What it takes for an entry to give a page. *)
Lemma entry_page_Some (supported_extensions : list string) (entry : archive_entry)
    (meta : cb_document_page_meta_t) :
  entry_page supported_extensions entry = Some meta <->
  entry_filetype entry = AE_IFREG /\
  (exists extension, get_extension (Some (entry_pathname entry)) = Some extension /\
                     extension ∈ supported_extensions) /\
  meta = read_meta (entry_pathname entry) (entry_data entry) /\
  0 < width meta /\ 0 < height meta.
Proof.
  unfold entry_page.
  destruct (Z.eqb_spec (entry_filetype entry) AE_IFREG) as [Hreg|Hreg];
    [|split; [discriminate | intros [? _]; contradiction]].
  destruct (get_extension (Some (entry_pathname entry))) as [x|];
    [|split; [discriminate | intros (_ & (? & ? & _) & _); discriminate]].
  destruct (bool_decide (x ∈ supported_extensions)) eqn:Hin.
  - apply bool_decide_eq_true_1 in Hin.
    destruct (Z.ltb_spec 0 (width (read_meta (entry_pathname entry) (entry_data entry))));
      destruct (Z.ltb_spec 0 (height (read_meta (entry_pathname entry) (entry_data entry))));
      simpl; split;
      try discriminate;
      try (intros (_ & _ & -> & ? & ?); lia).
    + intros [= <-]. eauto 10.
    + intros (_ & _ & -> & _). reflexivity.
  - apply bool_decide_eq_false_1 in Hin. split; [discriminate|].
    intros (_ & (? & [= <-] & ?) & _). contradiction.
Qed.

Lemma omap_length_le {A B} (f : A -> option B) (l : list A) :
  (length (omap f l) <= length l)%nat.
Proof.
  induction l as [|x l IH]; [reflexivity|].
  cbn [omap list_omap]. fold (omap f l). destruct (f x); cbn [length]; lia.
Qed.

(** The pages appended for a list of entries have positive dimensions. *)
Lemma appended_pages_positive (supported_extensions : list string)
    (entries : list archive_entry) (meta : cb_document_page_meta_t) :
  meta ∈ append_pages (omap (entry_page supported_extensions) entries) [] ->
  0 < width meta /\ 0 < height meta.
Proof.
  rewrite append_pages_perm, app_nil_r. intros Hin.
  apply list_elem_of_omap in Hin as (entry & _ & Hpage).
  apply entry_page_Some in Hpage. tauto.
Qed.

End ScanFacts.

(** ** The page index after an open *)

Section OpenedIndex.
Context {L : Locale} {C : Codec}.

(** After a successful open the page index is sorted by [compare_pages]:
    every page compares below or equal to every page after it. *)
Theorem open_index_sorted `{!Collation L} (env : environment) (doc doc' : zathura_document_t)
    (calls : list archive_call) (cb_document : cb_document_t) :
  cb_document_open env (Some doc) = (ZATHURA_ERROR_OK, Some doc', calls) ->
  document_data doc' = Some cb_document ->
  StronglySorted page_le (pages cb_document).
Proof.
  intros Hopen Hdata. apply cb_document_open_ok_inv in Hopen as (_ & _ & _ & ->).
  simpl in Hdata. injection Hdata as <-. simpl.
  apply append_pages_sorted. constructor.
Qed.

(** Every page of the index stands for a regular file of the archive whose
    extension is supported: it carries the path of that entry and the
    dimensions read from its data, both positive.  The index has as many
    pages as the host is told, and no more than the archive has entries. *)
Theorem open_pages_from_archive (env : environment) (doc doc' : zathura_document_t)
    (calls : list archive_call) :
  cb_document_open env (Some doc) = (ZATHURA_ERROR_OK, Some doc', calls) ->
  exists index,
    document_data doc' = Some {| pages := index |} /\
    number_of_pages doc' = length index /\
    (length index <= length (archive_read_open_filename env (document_path doc)).2)%nat /\
    forall meta, meta ∈ index ->
      0 < width meta /\ 0 < height meta /\
      exists entry extension,
        entry ∈ (archive_read_open_filename env (document_path doc)).2 /\
        entry_filetype entry = AE_IFREG /\
        entry_pathname entry = file meta /\
        get_extension (Some (file meta)) = Some extension /\
        extension ∈ concat (gdk_pixbuf_get_formats env) /\
        meta = read_meta (entry_pathname entry) (entry_data entry).
Proof.
  intros Hopen. apply cb_document_open_ok_inv in Hopen as (_ & _ & _ & ->).
  eexists. split; [reflexivity|]. split; [reflexivity|]. split.
  - rewrite append_pages_length.
    etransitivity; [apply omap_length_le | apply entries_scanned_length].
  - intros meta Hin. rewrite append_pages_perm, app_nil_r in Hin.
    apply list_elem_of_omap in Hin as (entry & Hentry & Hpage).
    apply entries_scanned_sublist in Hentry as [Hentry _].
    apply entry_page_Some in Hpage as (Hreg & (x & Hx & Hsup) & Hmeta & Hw & Hh).
    split; [exact Hw|]. split; [exact Hh|].
    assert (Hfile : file meta = entry_pathname entry)
      by (rewrite Hmeta; apply read_meta_file).
    exists entry, x. rewrite Hfile. auto 10.
Qed.

(** Conversely, every regular file with a supported extension and positive
    dimensions that the scan reads has its page in the index. *)
Theorem open_lists_every_image (env : environment) (doc doc' : zathura_document_t)
    (calls : list archive_call) (entry : archive_entry) (extension : string) :
  cb_document_open env (Some doc) = (ZATHURA_ERROR_OK, Some doc', calls) ->
  entry ∈ entries_scanned (archive_read_open_filename env (document_path doc)).2 ->
  entry_filetype entry = AE_IFREG ->
  get_extension (Some (entry_pathname entry)) = Some extension ->
  extension ∈ concat (gdk_pixbuf_get_formats env) ->
  0 < width (read_meta (entry_pathname entry) (entry_data entry)) ->
  0 < height (read_meta (entry_pathname entry) (entry_data entry)) ->
  exists cb_document,
    document_data doc' = Some cb_document /\
    read_meta (entry_pathname entry) (entry_data entry) ∈ pages cb_document.
Proof.
  intros Hopen Hentry Hreg Hext Hsup Hw Hh.
  apply cb_document_open_ok_inv in Hopen as (_ & _ & _ & ->).
  eexists. split; [reflexivity|]. simpl.
  rewrite append_pages_perm, app_nil_r.
  apply list_elem_of_omap. exists entry. split; [exact Hentry|].
  apply entry_page_Some. eauto 10.
Qed.

(** An open either succeeds, and then only the page count and the plugin
    data of the document change, or returns [ZATHURA_ERROR_UNKNOWN] and
    leaves the document as it was.  In both cases every archive handle it
    allocated is closed, if it was opened, and released. *)
Theorem open_all_or_nothing (env : environment) (doc : zathura_document_t) :
  ((exists index,
       (cb_document_open env (Some doc)).1 =
       (ZATHURA_ERROR_OK,
        Some {| document_path := document_path doc; number_of_pages := length index;
                document_data := Some {| pages := index |} |})) \/
   (cb_document_open env (Some doc)).1 = (ZATHURA_ERROR_UNKNOWN, Some doc)) /\
  handles_released (cb_document_open env (Some doc)).2.
Proof.
  rewrite cb_document_open_scanned. cbv zeta.
  destruct (archive_read_new env); [|split; [now right | now split]].
  destruct (_ =? ARCHIVE_OK) eqn:Hr.
  - destruct (scan_completes _); (split; [eauto | unfold handles_released; simpl; now rewrite Hr]).
  - split; [now right | unfold handles_released; simpl; now rewrite Hr].
Qed.

(** After a successful open, [cb_page_init] accepts exactly the indices
    below the page count given to the host, and a page it accepts gets
    positive dimensions and its plugin data. *)
Theorem open_then_page_init (env : environment) (doc doc' : zathura_document_t)
    (calls : list archive_call) (index : nat) :
  cb_document_open env (Some doc) = (ZATHURA_ERROR_OK, Some doc', calls) ->
  ((cb_page_init (Some (zathura_page_new doc' index))).1 = ZATHURA_ERROR_OK <->
   (index < number_of_pages doc')%nat) /\
  (forall page,
      cb_page_init (Some (zathura_page_new doc' index)) = (ZATHURA_ERROR_OK, Some page) ->
      0 < page_width page /\ 0 < page_height page /\ page_data page <> None /\
      page_document page = Some doc' /\ page_index page = index).
Proof.
  intros Hopen.
  apply cb_document_open_ok_inv in Hopen as (_ & _ & _ & ->).
  set (idx := append_pages _ []).
  assert (Hpos : forall meta, meta ∈ idx -> 0 < width meta /\ 0 < height meta)
    by (intros meta; apply appended_pages_positive).
  unfold cb_page_init, zathura_page_new, zathura_page_get_document, zathura_document_get_data.
  simpl. unfold girara_list_nth.
  destruct (nth_error idx index) as [meta|] eqn:Hnth.
  - split.
    + split; [intros _|reflexivity]. apply nth_error_Some. congruence.
    + intros page [= <-]. simpl.
      destruct (Hpos meta) as (Hw & Hh); [eapply list_elem_of_In, nth_error_In; eauto|].
      repeat split; try assumption. discriminate.
  - split.
    + split; [discriminate|]. intros Hlt. apply nth_error_None in Hnth. lia.
    + discriminate.
Qed.

End OpenedIndex.

Lemma open_index_sorted_witness :
  StronglySorted (@page_le posix_locale) (pages sample_index).
Proof.
  apply (@open_index_sorted posix_locale sample_codec posix_collation
           (archive_env sample_formats sample_entries) sample_document sample_opened_document
           [call_read_new; call_read_open_filename ARCHIVE_OK; call_read_close; call_read_free]
           sample_index);
    reflexivity.
Defined.

Lemma open_pages_from_archive_witness :
  exists index,
    document_data sample_opened_document = Some {| pages := index |} /\
    number_of_pages sample_opened_document = length index /\
    (length index <= length sample_entries)%nat /\
    forall meta, meta ∈ index ->
      0 < width meta /\ 0 < height meta /\
      exists entry extension,
        entry ∈ sample_entries /\
        entry_filetype entry = AE_IFREG /\
        entry_pathname entry = file meta /\
        get_extension (Some (file meta)) = Some extension /\
        extension ∈ concat sample_formats /\
        meta = @read_meta sample_codec (entry_pathname entry) (entry_data entry).
Proof.
  apply (@open_pages_from_archive posix_locale sample_codec
           (archive_env sample_formats sample_entries) sample_document sample_opened_document
           [call_read_new; call_read_open_filename ARCHIVE_OK; call_read_close; call_read_free]).
  reflexivity.
Defined.

Lemma open_lists_every_image_witness :
  exists cb_document,
    document_data sample_opened_document = Some cb_document /\
    @read_meta sample_codec "a.png" (one_block image_30x30) ∈ pages cb_document.
Proof.
  apply (@open_lists_every_image posix_locale sample_codec
           (archive_env sample_formats sample_entries) sample_document sample_opened_document
           [call_read_new; call_read_open_filename ARCHIVE_OK; call_read_close; call_read_free]
           (regular_file "a.png" (one_block image_30x30)) "png").
  - reflexivity.
  - simpl. unfold sample_entries. list_member.
  - reflexivity.
  - reflexivity.
  - list_member.
  - reflexivity.
  - reflexivity.
Defined.

Lemma open_then_page_init_witness :
  ((cb_page_init (Some (zathura_page_new sample_opened_document 1))).1 = ZATHURA_ERROR_OK <->
   (1 < number_of_pages sample_opened_document)%nat) /\
  (forall page,
      cb_page_init (Some (zathura_page_new sample_opened_document 1)) =
        (ZATHURA_ERROR_OK, Some page) ->
      0 < page_width page /\ 0 < page_height page /\ page_data page <> None /\
      page_document page = Some sample_opened_document /\ page_index page = 1%nat).
Proof.
  apply (@open_then_page_init posix_locale sample_codec
           (archive_env sample_formats sample_entries) sample_document sample_opened_document
           [call_read_new; call_read_open_filename ARCHIVE_OK; call_read_close; call_read_free]
           1).
  reflexivity.
Defined.

(** ** The loops of the scanner *)

Section ScanLoops.
Context {L : Locale} {C : Codec}.

(** The scan ends at the first header that is the end mark or an error
    below a warning: it succeeds in the first case only, keeps the pages
    found so far, and never looks at the entries behind. *)
Theorem read_entries_stops (supported_extensions : list string)
    (before after : list archive_entry) (entry : archive_entry)
    (pages : list cb_document_page_meta_t) :
  forallb header_ok before = true ->
  header_ok entry = false ->
  read_entries (before ++ entry :: after) supported_extensions pages =
  (entry_header entry =? ARCHIVE_EOF,
   append_pages (omap (entry_page supported_extensions) before) pages,
   [call_read_close; call_read_free]).
Proof.
  intros Hbefore Hentry. rewrite read_entries_scanned.
  assert (Hscan : entries_scanned (before ++ entry :: after) = before /\
                  scan_completes (before ++ entry :: after)
                  = (entry_header entry =? ARCHIVE_EOF)).
  { induction before as [|e before IH]; simpl.
    - now rewrite Hentry.
    - simpl in Hbefore. apply andb_prop in Hbefore as [He Hbefore].
      rewrite He. destruct (IH Hbefore) as [-> ->]. now split. }
  destruct Hscan as [-> ->]. reflexivity.
Qed.

(** An entry that is not a regular file adds no page, whatever its name and
    data, and the scan goes on with the next entry. *)
Theorem read_entries_skips_non_regular (supported_extensions : list string)
    (before after : list archive_entry) (entry : archive_entry)
    (pages : list cb_document_page_meta_t) :
  header_ok entry = true ->
  entry_filetype entry <> AE_IFREG ->
  read_entries (before ++ entry :: after) supported_extensions pages =
  read_entries (before ++ after) supported_extensions pages.
Proof.
  intros Hok Hreg. apply read_entries_app. intros pages'.
  rewrite read_entries_cons by exact Hok. unfold scan_entry, entry_page.
  apply Z.eqb_neq in Hreg. now rewrite Hreg.
Qed.

(** A header read that returns a warning, or any code from [ARCHIVE_WARN]
    upwards other than [ARCHIVE_EOF], counts as a success: the scan goes as
    if the code had been [ARCHIVE_OK]. *)
Theorem read_entries_ignores_warnings (supported_extensions : list string)
    (before after : list archive_entry) (entry : archive_entry)
    (pages : list cb_document_page_meta_t) :
  ARCHIVE_WARN <= entry_header entry ->
  entry_header entry <> ARCHIVE_EOF ->
  read_entries (before ++ entry :: after) supported_extensions pages =
  read_entries (before ++ with_header ARCHIVE_OK entry :: after) supported_extensions pages.
Proof.
  intros Hwarn Heof. apply read_entries_app. intros pages'.
  assert (Hok : header_ok entry = true).
  { unfold header_ok. apply andb_true_intro. split; apply negb_true_iff.
    - now apply Z.eqb_neq.
    - now apply Z.ltb_ge. }
  rewrite !read_entries_cons by (exact Hok || reflexivity).
  reflexivity.
Qed.


(** Empty blocks are never written to the loader: an entry all of whose
    blocks are empty leaves the loader and the meta-data as they were. *)
Theorem read_data_blocks_empty (blocks : list (Z * list byte)) (loader : GdkPixbufLoader)
    (meta : cb_document_page_meta_t) :
  Forall (fun block => block.2 = []) blocks ->
  read_data_blocks blocks loader meta = (loader, meta).
Proof.
  induction 1 as [|[r buf] blocks Hbuf _ IH]; [reflexivity|].
  simpl in Hbuf. subst buf. cbn [read_data_blocks length].
  destruct (r =? ARCHIVE_EOF); [reflexivity | exact IH].
Qed.

(** When every entry of an archive is an image, meaning a regular file
    with a sound header, a supported extension and positive dimensions,
    the open succeeds and the document has as many pages as the archive has
    entries. *)
Theorem open_counts_every_image (formats : list (list string)) (entries : list archive_entry)
    (doc : zathura_document_t) :
  Forall (fun entry =>
            header_ok entry = true /\
            entry_filetype entry = AE_IFREG /\
            (exists extension,
                get_extension (Some (entry_pathname entry)) = Some extension /\
                extension ∈ concat formats) /\
            0 < width (read_meta (entry_pathname entry) (entry_data entry)) /\
            0 < height (read_meta (entry_pathname entry) (entry_data entry))) entries ->
  exists cb_document,
    (cb_document_open (archive_env formats entries) (Some doc)).1 =
    (ZATHURA_ERROR_OK,
     Some {| document_path := document_path doc; number_of_pages := length entries;
             document_data := Some cb_document |}).
Proof.
  intros Hall. rewrite cb_document_open_scanned. cbn [archive_env archive_read_new
    archive_read_open_filename gdk_pixbuf_get_formats fst snd]. cbv zeta.
  assert (Hscan : entries_scanned entries = entries /\ scan_completes entries = true /\
                  length (omap (entry_page (concat formats)) entries) = length entries).
  { induction Hall as [|e entries (Hok & Hreg & Hext & Hw & Hh) _ IH]; [easy|].
    assert (Hmeta : entry_page (concat formats) e
                    = Some (read_meta (entry_pathname e) (entry_data e)))
      by (apply entry_page_Some; auto).
    cbn [entries_scanned scan_completes omap list_omap]. rewrite Hok, Hmeta.
    destruct IH as (-> & -> & Hlen). fold (omap (entry_page (concat formats)) entries).
    cbn [length]. now rewrite Hlen. }
  destruct Hscan as (-> & -> & Hlen).
  replace (ARCHIVE_OK =? ARCHIVE_OK) with true by reflexivity.
  rewrite append_pages_length, Hlen. eexists. reflexivity.
Qed.

End ScanLoops.

Lemma read_entries_stops_witness :
  @read_entries posix_locale sample_codec
    (sample_entries ++ with_header ARCHIVE_FATAL (regular_file "c.png" (one_block image_10x10))
       :: case_variant_entries) ["png"; "jpg"] [] =
  (ARCHIVE_FATAL =? ARCHIVE_EOF,
   @append_pages posix_locale
     (omap (@entry_page sample_codec ["png"; "jpg"]) sample_entries) [],
   [call_read_close; call_read_free]).
Proof.
  apply (@read_entries_stops posix_locale sample_codec ["png"; "jpg"] sample_entries
           case_variant_entries
           (with_header ARCHIVE_FATAL (regular_file "c.png" (one_block image_10x10))) []);
    reflexivity.
Defined.

Lemma read_entries_skips_non_regular_witness :
  @read_entries posix_locale sample_codec
    ([] ++ {| entry_header := ARCHIVE_OK; entry_filetype := 16384;
              entry_pathname := "dir.png"; entry_data := one_block image_10x10 |}
        :: sample_entries) ["png"; "jpg"] [] =
  @read_entries posix_locale sample_codec ([] ++ sample_entries) ["png"; "jpg"] [].
Proof.
  apply (@read_entries_skips_non_regular posix_locale sample_codec).
  - reflexivity.
  - discriminate.
Defined.

Lemma read_entries_ignores_warnings_witness :
  @read_entries posix_locale sample_codec
    ([] ++ with_header ARCHIVE_WARN (regular_file "c.png" (one_block image_10x10))
        :: sample_entries) ["png"; "jpg"] [] =
  @read_entries posix_locale sample_codec
    ([] ++ with_header ARCHIVE_OK
             (with_header ARCHIVE_WARN (regular_file "c.png" (one_block image_10x10)))
        :: sample_entries) ["png"; "jpg"] [].
Proof.
  apply (@read_entries_ignores_warnings posix_locale sample_codec).
  - simpl. unfold ARCHIVE_WARN. lia.
  - discriminate.
Defined.


Lemma read_data_blocks_empty_witness :
  @read_data_blocks sample_codec [(ARCHIVE_OK, []); (ARCHIVE_WARN, [])] ([], false)
    {| file := "empty.png"; width := 0; height := 0 |} =
  (([], false), {| file := "empty.png"; width := 0; height := 0 |}).
Proof.
  apply (@read_data_blocks_empty sample_codec).
  repeat constructor.
Defined.

Lemma open_counts_every_image_witness :
  exists cb_document,
    (@cb_document_open posix_locale sample_codec
       (archive_env sample_formats case_variant_entries) (Some sample_document)).1 =
    (ZATHURA_ERROR_OK,
     Some {| document_path := "comic.cbz"; number_of_pages := 2;
             document_data := Some cb_document |}).
Proof.
  apply (@open_counts_every_image posix_locale sample_codec sample_formats
           case_variant_entries sample_document).
  repeat constructor; try reflexivity; exists "png"; (split; [reflexivity | list_member]).
Defined.

(** ** The fetcher and the renderer *)

Section FetchFacts.
Context {L : Locale} {C : Codec}.

Lemma compare_path_refl `{!Collation L} (path : string) : compare_path path path = 0.
Proof.
  unfold compare_path.
  destruct (Z.lt_ge_cases 0 (g_utf8_collate (g_utf8_casefold path) (g_utf8_casefold path)))
    as [Hgt|Hle].
  - pose proof (collate_total _ _ Hgt). lia.
  - now apply collate_antisym.
Qed.

Lemma find_entry_load (entry : archive_entry) (entries : list archive_entry) (file : string) :
  header_ok entry = true ->
  compare_path (entry_pathname entry) file = 0 ->
  find_entry (entry :: entries) file = (load_entry entry, [call_read_close; call_read_free]).
Proof.
  unfold header_ok. intros Hok Htie. apply andb_prop in Hok as [H1 H2].
  apply negb_true_iff in H1, H2. cbn [find_entry]. rewrite H1, H2, Htie.
  cbn [Z.eqb negb]. unfold load_entry.
  destruct (read_stream (entry_data entry) []) as [stream|]; [|reflexivity].
  destruct (gdk_pixbuf_new_from_stream stream); reflexivity.
Qed.

Lemma find_entry_next (entry : archive_entry) (entries : list archive_entry) (file : string) :
  header_ok entry = true ->
  compare_path (entry_pathname entry) file <> 0 ->
  find_entry (entry :: entries) file = find_entry entries file.
Proof.
  unfold header_ok. intros Hok Htie. apply andb_prop in Hok as [H1 H2].
  apply negb_true_iff in H1, H2. cbn [find_entry]. rewrite H1, H2.
  apply Z.eqb_neq in Htie. now rewrite Htie.
Qed.

(** A path that ties with an entry among those a scan reads is found by the
    fetcher, at that entry or at an earlier one that ties as well. *)
Lemma find_entry_scanned (entries : list archive_entry) (entry0 : archive_entry)
    (file : string) :
  entry0 ∈ entries_scanned entries ->
  compare_path (entry_pathname entry0) file = 0 ->
  exists entry,
    entry ∈ entries /\ compare_path (entry_pathname entry) file = 0 /\
    find_entry entries file = (load_entry entry, [call_read_close; call_read_free]).
Proof.
  intros Hin Htie. induction entries as [|e entries IH]; simpl in Hin; [inversion Hin|].
  destruct (header_ok e) eqn:Hok; [|inversion Hin].
  destruct (Z.eq_dec (compare_path (entry_pathname e) file) 0) as [He|He].
  - exists e. split; [left|]. split; [exact He|]. now apply find_entry_load.
  - apply elem_of_cons in Hin as [->|Hin]; [contradiction|].
    destruct (IH Hin) as (entry & Hentry & Hentry_tie & Hfind).
    exists entry. split; [now right|]. split; [exact Hentry_tie|].
    now rewrite find_entry_next.
Qed.

(** The fetcher stops at the first entry whose path ties with the one asked
    for and returns what that entry decodes to; the entries behind it, and
    their headers, play no part. *)
Theorem find_entry_first_match (before after : list archive_entry) (entry : archive_entry)
    (file : string) :
  Forall (fun e => header_ok e = true /\ compare_path (entry_pathname e) file <> 0) before ->
  header_ok entry = true ->
  compare_path (entry_pathname entry) file = 0 ->
  find_entry (before ++ entry :: after) file =
  (load_entry entry, [call_read_close; call_read_free]).
Proof.
  intros Hbefore Hok Htie.
  induction Hbefore as [|e before [He Hne] _ IH]; cbn [app].
  - now apply find_entry_load.
  - now rewrite find_entry_next.
Qed.

(** A page listed by a successful open is found again by the fetcher in the
    same environment: the fetch ends at an entry of the archive whose path
    ties with the file of the page, and returns what that entry decodes
    to, with the handle closed and released. *)
Theorem listed_page_is_fetched `{!Collation L} (env : environment)
    (doc doc' : zathura_document_t) (calls : list archive_call)
    (cb_document : cb_document_t) (meta : cb_document_page_meta_t) :
  cb_document_open env (Some doc) = (ZATHURA_ERROR_OK, Some doc', calls) ->
  document_data doc' = Some cb_document ->
  meta ∈ pages cb_document ->
  exists entry,
    entry ∈ (archive_read_open_filename env (document_path doc')).2 /\
    compare_path (entry_pathname entry) (file meta) = 0 /\
    load_pixbuf_from_archive env (Some (document_path doc')) (Some (file meta)) =
    (load_entry entry,
     [call_read_new; call_read_open_filename ARCHIVE_OK; call_read_close; call_read_free]).
Proof.
  intros Hopen Hdata Hmeta.
  apply cb_document_open_ok_inv in Hopen as (Hnew & Hr & _ & ->).
  simpl in Hdata. injection Hdata as <-. cbn [pages document_path] in *.
  rewrite append_pages_perm, app_nil_r in Hmeta.
  apply list_elem_of_omap in Hmeta as (entry0 & Hentry0 & Hpage).
  apply entry_page_Some in Hpage as (_ & _ & Hfile & _).
  apply (f_equal file) in Hfile. rewrite read_meta_file in Hfile.
  destruct (find_entry_scanned _ entry0 (file meta) Hentry0) as (entry & Hin & Htie & Hfind).
  { rewrite Hfile. apply compare_path_refl. }
  exists entry. split; [exact Hin|]. split; [exact Htie|].
  unfold load_pixbuf_from_archive. rewrite Hnew. cbn [negb].
  destruct (archive_read_open_filename env (document_path doc)) as [r entries].
  simpl in Hr, Hfind. subst r. cbn [Z.eqb ARCHIVE_OK negb]. now rewrite Hfind.
Qed.

(** The copying loop of the fetcher gathers the blocks in the order read,
    warnings included, and gives up at the first read below a warning,
    whatever was gathered and whatever follows. *)
Theorem read_stream_gathers (blocks after : list (Z * list byte)) (mis : list byte) :
  Forall (fun block => block.1 <> ARCHIVE_EOF /\ ARCHIVE_WARN <= block.1) blocks ->
  read_stream blocks mis = Some (mis ++ concat (map snd blocks)) /\
  (forall r buf, r < ARCHIVE_WARN ->
     read_stream (blocks ++ (r, buf) :: after) mis = None) /\
  (forall buf,
     read_stream (blocks ++ (ARCHIVE_EOF, buf) :: after) mis =
     Some (mis ++ concat (map snd blocks))).
Proof.
  intros Hall. revert mis.
  induction Hall as [|[r0 buf0] blocks [Heof Hwarn] _ IH]; intros mis; simpl in *.
  - rewrite app_nil_r. repeat split.
    intros r buf Hr.
    replace (r =? ARCHIVE_EOF) with false
      by (symmetry; apply Z.eqb_neq; unfold ARCHIVE_EOF, ARCHIVE_WARN in *; lia).
    apply Z.ltb_lt in Hr. now rewrite Hr.
  - apply Z.eqb_neq in Heof. apply Z.ltb_ge in Hwarn. rewrite Heof, Hwarn.
    destruct (Z.eqb_spec (Z.of_nat (length buf0)) 0) as [Hlen|Hlen].
    + destruct buf0; [|simpl in Hlen; lia]. simpl. apply IH.
    + rewrite app_assoc. apply IH.
Qed.

(** [cb_page_render_cairo] changes the cairo context only when it returns
    [ZATHURA_ERROR_OK]; it does so only for a page with a document, page
    data and a context, and then the bitmap that [load_pixbuf_from_archive]
    returned for the document's archive and the page's file is the source,
    set at the origin, and what is painted. *)
Theorem render_paints_or_keeps (env : environment) (page : option zathura_page_t)
    (cb_page : option cb_page_t) (cairo : option cairo_t) (printing : bool) :
  match (cb_page_render_cairo env page cb_page cairo printing).1 with
  | (ZATHURA_ERROR_OK, cairo') =>
      exists p document cp cr pixbuf,
        page = Some p /\ page_document p = Some document /\
        cb_page = Some cp /\ cairo = Some cr /\
        (load_pixbuf_from_archive env (Some (document_path document))
           (Some (cb_page_file cp))).1 = Some pixbuf /\
        cairo' = Some (cairo_paint (gdk_cairo_set_source_pixbuf cr pixbuf 0 0)) /\
        cairo' = Some {| cairo_source := Some (pixbuf, 0, 0);
                         cairo_target := Some (pixbuf, 0, 0) |}
  | (_, cairo') => cairo' = cairo
  end.
Proof.
  unfold cb_page_render_cairo.
  destruct page as [p|], cb_page as [cp|], cairo as [cr|]; try reflexivity.
  cbn [zathura_page_get_document].
  destruct (page_document p) as [d|] eqn:Hdoc; [|reflexivity].
  destruct (load_pixbuf_from_archive env _ _) as [[pixbuf|] calls] eqn:Hload; [|reflexivity].
  cbn [fst]. exists p, d, cp, cr, pixbuf. rewrite Hload. auto 10.
Qed.

(** When the archive of the document opens, a render closes and releases
    the handle it allocated, whatever comes of the fetch. *)
Theorem render_releases_handles (env : environment) (page : zathura_page_t)
    (document : zathura_document_t) (cb_page : option cb_page_t) (cairo : option cairo_t)
    (printing : bool) :
  page_document page = Some document ->
  (archive_read_open_filename env (document_path document)).1 = ARCHIVE_OK ->
  handles_released (cb_page_render_cairo env (Some page) cb_page cairo printing).2.
Proof.
  intros Hdoc Hopen. unfold cb_page_render_cairo.
  destruct cb_page as [cp|], cairo as [cr|]; try (now split).
  cbn [zathura_page_get_document]. rewrite Hdoc.
  pose proof (load_pixbuf_from_archive_releases env (document_path document)
                (cb_page_file cp) Hopen) as Hrel.
  destruct (load_pixbuf_from_archive env _ _) as [[pixbuf|] calls]; exact Hrel.
Qed.

(** [cb_page_init] succeeds exactly when the page has a document that was
    opened by the plugin and its index is within the page list; it then
    keeps the document and the index of the page, and otherwise returns
    [ZATHURA_ERROR_UNKNOWN] and the page as it was. *)
Theorem cb_page_init_succeeds_iff (page : zathura_page_t) :
  ((cb_page_init (Some page)).1 = ZATHURA_ERROR_OK <->
   exists document cb_document meta,
     page_document page = Some document /\
     document_data document = Some cb_document /\
     nth_error (pages cb_document) (page_index page) = Some meta) /\
  ((exists page',
       cb_page_init (Some page) = (ZATHURA_ERROR_OK, Some page') /\
       page_document page' = page_document page /\
       page_index page' = page_index page /\ page_data page' <> None) \/
   cb_page_init (Some page) = (ZATHURA_ERROR_UNKNOWN, Some page)).
Proof.
  unfold cb_page_init, zathura_page_get_document, zathura_document_get_data, girara_list_nth.
  destruct (page_document page) as [d|] eqn:Hdoc;
    [|split; [split; [discriminate | intros (? & ? & ? & ? & _); discriminate] | now right]].
  destruct (document_data d) as [cbd|] eqn:Hdata;
    [|split; [split; [discriminate | intros (? & ? & ? & [= <-] & ? & _); congruence]
             | now right]].
  destruct (nth_error (pages cbd) (page_index page)) as [meta|] eqn:Hnth.
  - split; [split; [intros _; eauto 10 | reflexivity]|].
    left. eexists. split; [reflexivity|]. simpl. repeat split. discriminate.
  - split; [|now right]. split; [discriminate|].
    intros (? & ? & ? & [= <-] & Hdata' & Hnth'). congruence.
Qed.

End FetchFacts.

(** An extension is supported exactly when one of the formats of
    gdk-pixbuf lists it. *)
Theorem collect_extensions_member (formats : list (list string)) (ext : string) :
  ext ∈ collect_extensions formats <-> exists extensions, extensions ∈ formats /\ ext ∈ extensions.
Proof.
  rewrite collect_extensions_concat, list_elem_of_In, in_concat.
  split; intros (extensions & H1 & H2); exists extensions;
    rewrite ?list_elem_of_In in *; auto.
Qed.

Lemma find_entry_first_match_witness :
  @find_entry posix_locale sample_codec
    ([regular_file "b.png" (one_block image_50x50);
      regular_file "a.txt" (one_block not_an_image)]
     ++ regular_file "a.png" (one_block image_30x30) :: case_variant_entries) "A.PNG" =
  (@load_entry sample_codec (regular_file "a.png" (one_block image_30x30)),
   [call_read_close; call_read_free]).
Proof.
  apply (@find_entry_first_match posix_locale sample_codec).
  - repeat constructor; vm_compute; discriminate.
  - reflexivity.
  - reflexivity.
Defined.

Lemma listed_page_is_fetched_witness :
  exists entry,
    entry ∈ sample_entries /\
    @compare_path posix_locale (entry_pathname entry) "a.png" = 0 /\
    @load_pixbuf_from_archive posix_locale sample_codec
      (archive_env sample_formats sample_entries) (Some "comic.cbz") (Some "a.png") =
    (@load_entry sample_codec entry,
     [call_read_new; call_read_open_filename ARCHIVE_OK; call_read_close; call_read_free]).
Proof.
  apply (@listed_page_is_fetched posix_locale sample_codec posix_collation
           (archive_env sample_formats sample_entries) sample_document sample_opened_document
           [call_read_new; call_read_open_filename ARCHIVE_OK; call_read_close; call_read_free]
           sample_index {| file := "a.png"; width := 30; height := 30 |}).
  - reflexivity.
  - reflexivity.
  - simpl. left.
Defined.

Lemma read_stream_gathers_witness :
  read_stream [(ARCHIVE_OK, [x01]); (ARCHIVE_WARN, [x02]); (ARCHIVE_OK, [])] [x00] =
    Some ([x00] ++ concat (map snd [(ARCHIVE_OK, [x01]); (ARCHIVE_WARN, [x02]);
                                    (ARCHIVE_OK, [])])) /\
  (forall r buf, r < ARCHIVE_WARN ->
     read_stream ([(ARCHIVE_OK, [x01]); (ARCHIVE_WARN, [x02]); (ARCHIVE_OK, [])]
                  ++ (r, buf) :: [(ARCHIVE_OK, [x03])]) [x00] = None) /\
  (forall buf,
     read_stream ([(ARCHIVE_OK, [x01]); (ARCHIVE_WARN, [x02]); (ARCHIVE_OK, [])]
                  ++ (ARCHIVE_EOF, buf) :: [(ARCHIVE_OK, [x03])]) [x00] =
     Some ([x00] ++ concat (map snd [(ARCHIVE_OK, [x01]); (ARCHIVE_WARN, [x02]);
                                     (ARCHIVE_OK, [])]))).
Proof.
  apply (read_stream_gathers [(ARCHIVE_OK, [x01]); (ARCHIVE_WARN, [x02]); (ARCHIVE_OK, [])]
           [(ARCHIVE_OK, [x03])] [x00]).
  repeat constructor; simpl; try discriminate; unfold ARCHIVE_WARN, ARCHIVE_OK; lia.
Defined.

Lemma render_releases_handles_witness :
  handles_released
    (@cb_page_render_cairo posix_locale sample_codec
       (archive_env sample_formats sample_entries)
       (Some (zathura_page_new sample_opened_document 0))
       (Some {| cb_page_file := "a.png" |})
       (Some {| cairo_source := None; cairo_target := None |}) false).2.
Proof.
  apply (@render_releases_handles posix_locale sample_codec
           (archive_env sample_formats sample_entries)
           (zathura_page_new sample_opened_document 0) sample_opened_document);
    reflexivity.
Defined.

Lemma get_extension_dot_witness :
  get_extension (Some (String.append "vol.1/cover" (String "." "png"))) = Some "png".
Proof. apply (get_extension_dot "vol.1/cover" "png"). reflexivity. Defined.

(** ** Opening the archive *)

(** Any answer of [archive_read_open_filename] other than [ARCHIVE_OK], a
    warning included, fails the open: the document is left as it was and
    the handle is released without being closed. *)
Theorem open_needs_archive_ok {L : Locale} {C : Codec} (env : environment)
    (doc : zathura_document_t) :
  archive_read_new env = true ->
  (archive_read_open_filename env (document_path doc)).1 <> ARCHIVE_OK ->
  cb_document_open env (Some doc) =
  (ZATHURA_ERROR_UNKNOWN, Some doc,
   [call_read_new;
    call_read_open_filename (archive_read_open_filename env (document_path doc)).1;
    call_read_free]).
Proof.
  intros Hnew Hr. rewrite cb_document_open_scanned, Hnew. cbv zeta.
  apply Z.eqb_neq in Hr. now rewrite Hr.
Qed.

Lemma open_needs_archive_ok_witness :
  @cb_document_open posix_locale sample_codec
    {| archive_read_new := true;
       archive_read_open_filename := fun _ => (ARCHIVE_WARN, sample_entries);
       gdk_pixbuf_get_formats := sample_formats |} (Some sample_document) =
  (ZATHURA_ERROR_UNKNOWN, Some sample_document,
   [call_read_new; call_read_open_filename ARCHIVE_WARN; call_read_free]).
Proof.
  apply (@open_needs_archive_ok posix_locale sample_codec
           {| archive_read_new := true;
              archive_read_open_filename := fun _ => (ARCHIVE_WARN, sample_entries);
              gdk_pixbuf_get_formats := sample_formats |} sample_document).
  - reflexivity.
  - discriminate.
Defined.

Lemma cb_document_open_header_error_witness :
  @cb_document_open posix_locale sample_codec
    (archive_env sample_formats
       (sample_entries
        ++ with_header ARCHIVE_FAILED (regular_file "c.png" (one_block image_10x10))
        :: case_variant_entries)) (Some sample_document) =
  (ZATHURA_ERROR_UNKNOWN, Some sample_document,
   [call_read_new; call_read_open_filename ARCHIVE_OK; call_read_close; call_read_free]).
Proof.
  apply (@cb_document_open_header_error posix_locale sample_codec sample_formats
           sample_entries case_variant_entries
           (with_header ARCHIVE_FAILED (regular_file "c.png" (one_block image_10x10)))
           sample_document).
  - reflexivity.
  - reflexivity.
Defined.
